(** * AstroPi speed estimator: a model of [main.py] and its properties

    The program photographs the ground at regular intervals, matches ORB
    features between consecutive photos, turns the mean pixel displacement
    into an orbital speed by an eight-round fixed-point iteration, and writes
    the mean of all speeds to [result.txt].

    Modelling conventions.
    - The run of the program is modelled with Python floats idealised as
      real numbers.  The two trapping behaviours of the arithmetic used by
      the program are kept explicit: [/] raises [ZeroDivisionError] on a
      zero divisor and [math.sqrt] raises [ValueError] on a negative
      argument.  This model carries the statements about control flow:
      which exceptions are caught, what is appended, deleted, closed and
      written, and when.
    - The numeric lines (the mean distance, the solver, the estimate and its
      formatting) are modelled a second time on IEEE 754 binary64 numbers,
      in module [Binary64], with the operations in the order in which the
      program performs them.  This model carries the statements about the
      values computed: there a product can round to zero, a sum depends on
      the order of its terms and a text is the rounding of a double.
    - Where a statement about the exact-arithmetic solver says that it does
      not fault, or bounds its result, it is made for displacements that are
      zero or between a millionth of a pixel and a million pixels, and for
      elapsed times between a microsecond and a million seconds: in that
      range no intermediate result of the double-precision computation
      rounds to zero or overflows.
    - [datetime] values are integers counting microseconds.
    - In the model of the run the final write of [result.txt] succeeds; the
      cases in which the file cannot be opened or written are part of
      [Binary64.finalize].
    - The camera, the clock, the file system and OpenCV are the environment:
      what they answer in one pass through the loop is an [iteration_io]
      record, and a run is driven by a list of such records.
    - Program state and exceptions are threaded by a state-and-exception
      monad; a [try]/[except] keeps the state reached when the exception was
      raised, as in Python. *)

From Stdlib Require Import Floats.
From Stdlib Require Import Reals Lra Lia ZArith List String Ascii Bool FinFun.
From Stdlib Require Import Permutation Sorted DecimalString DecimalPos DecimalZ.
Import ListNotations.

(* ================================================================= *)
(** ** Python primitives *)

Module Py.

Inductive exn : Type :=
| cv2_error
| ZeroDivisionError
| ValueError
| IndexError
| UnboundLocalError
| PiCameraError
| OSError.

Inductive result (A : Type) : Type :=
| Ok (a : A)
| Raise (e : exn).

Arguments Ok {A} a.
Arguments Raise {A} e.

Definition bind {A B : Type} (r : result A) (f : A -> result B) : result B :=
  match r with
  | Ok a => f a
  | Raise e => Raise e
  end.

(** [x / y] on floats. *)
Definition truediv (x y : R) : result R :=
  if Req_dec_T y 0 then Raise ZeroDivisionError else Ok (x / y)%R.

(** [math.sqrt]. *)
Definition math_sqrt (x : R) : result R :=
  if Rlt_dec x 0 then Raise ValueError else Ok (sqrt x).

(** [math.hypot]. *)
Definition math_hypot (x y : R) : R := sqrt (x * x + y * y)%R.

(** [l[i]] for a non-negative index. *)
Definition getitem {A : Type} (l : list A) (i : nat) : result A :=
  match nth_error l i with
  | Some a => Ok a
  | None => Raise IndexError
  end.

(** [str(n)] for an integer, as used by an f-string. *)
Definition str (n : Z) : string := NilZero.string_of_int (Z.to_int n).

(** [timedelta.total_seconds()] of a difference given in microseconds. *)
Definition total_seconds (us : Z) : R := (IZR us / 1000000)%R.

Definition digit_char (d : Z) : ascii := ascii_of_nat (48 + Z.to_nat d).

(** Four decimal digits of [0 <= n < 10000], with leading zeros. *)
Definition zfill4 (n : Z) : string :=
  String (digit_char (n / 1000 mod 10))
    (String (digit_char (n / 100 mod 10))
       (String (digit_char (n / 10 mod 10))
          (String (digit_char (n mod 10)) EmptyString))).

(** Rounding to the nearest integer, ties to even. *)
Definition round_half_even (x : R) : Z :=
  let f := Zfloor x in
  let r := (x - IZR f)%R in
  if Rlt_dec r (1 / 2) then f
  else if Rlt_dec (1 / 2) r then (f + 1)%Z
  else if Z.even f then f else (f + 1)%Z.

(** ["{:.4f}".format(x)] on an exact value; the rounding of a double is
    [Binary64.format_4f]. *)
Definition format_4f (x : R) : string :=
  let m := round_half_even (Rabs x * 10000) in
  ((if Rlt_dec x 0 then "-" else "")
     ++ str (m / 10000) ++ "." ++ zfill4 (m mod 10000))%string.

End Py.

Import Py.

Declare Scope result_scope.
Delimit Scope result_scope with result.
Notation "'let*' x ':=' r 'in' k" :=
  (Py.bind r (fun x => k))
    (at level 10, x pattern, r at level 100, k at level 200) : result_scope.

(* ================================================================= *)
(** ** Correspondence measurement *)

Module Measurer.

Local Open Scope R_scope.
Local Open Scope result_scope.

Definition point : Type := (R * R)%type.

(** [cv2.KeyPoint], of which only [pt] is read. *)
Record KeyPoint : Type := mkKeyPoint { pt : point }.

(** [cv2.DMatch]. *)
Record DMatch : Type := mkDMatch {
  queryIdx : nat;
  trainIdx : nat;
  distance : R
}.

(** [sorted(matches, key=lambda x: x.distance)]: a stable sort. *)
Fixpoint insert_by_distance (m : DMatch) (l : list DMatch) : list DMatch :=
  match l with
  | [] => [m]
  | m' :: l' =>
      if Rle_dec (distance m) (distance m') then m :: m' :: l'
      else m' :: insert_by_distance m l'
  end.

Definition sorted_by_distance (l : list DMatch) : list DMatch :=
  fold_right insert_by_distance [] l.

(** [calculate_matches]: [matcher] is what [brute_force.match] answers for
    the two descriptor sets. *)
Definition calculate_matches (matcher : result (list DMatch))
  : result (list DMatch) :=
  let* matches := matcher in
  Ok (sorted_by_distance matches).

(** The [for match in matches] loop of [find_matching_coordinates]. *)
Fixpoint find_matching_coordinates_loop
    (keypoints_1 keypoints_2 : list KeyPoint) (matches : list DMatch)
    (coordinates_1 coordinates_2 : list point)
  : result (list point * list point) :=
  match matches with
  | [] => Ok (coordinates_1, coordinates_2)
  | m :: matches' =>
      let image_1_idx := queryIdx m in
      let image_2_idx := trainIdx m in
      let* k1 := getitem keypoints_1 image_1_idx in
      let* k2 := getitem keypoints_2 image_2_idx in
      find_matching_coordinates_loop keypoints_1 keypoints_2 matches'
        (coordinates_1 ++ [pt k1]) (coordinates_2 ++ [pt k2])
  end.

Definition find_matching_coordinates
    (keypoints_1 keypoints_2 : list KeyPoint) (matches : list DMatch)
  : result (list point * list point) :=
  find_matching_coordinates_loop keypoints_1 keypoints_2 matches [] [].

(** The distance added for one element of [merged_coordinates]. *)
Definition pair_distance (coordinate : point * point) : R :=
  let x_difference := fst (fst coordinate) - fst (snd coordinate) in
  let y_difference := snd (fst coordinate) - snd (snd coordinate) in
  math_hypot x_difference y_difference.

Definition calculate_mean_distance (coordinates_1 coordinates_2 : list point)
  : result R :=
  let merged_coordinates := combine coordinates_1 coordinates_2 in
  let all_distances :=
    fold_left (fun acc coordinate => acc + pair_distance coordinate)
      merged_coordinates 0 in
  if negb (Nat.eqb (List.length merged_coordinates) 0)
  then truediv all_distances (INR (List.length merged_coordinates))
  else Ok 0.

(** The arithmetic mean of the Euclidean distances, as the specification
    words it. *)
Definition mean_euclidean_distance (pairs : list (point * point)) : R :=
  fold_right Rplus 0
    (map (fun c => sqrt ((fst (fst c) - fst (snd c)) ^ 2
                         + (snd (fst c) - snd (snd c)) ^ 2)) pairs)
  / INR (List.length pairs).

(** [sum] of a list of distances, by structural recursion. *)
Definition total (l : list R) : R := fold_right Rplus 0 l.

(** The coordinates of the matches, all looked up before any is used. *)
Fixpoint matched_pairs (kp1 kp2 : list KeyPoint) (ms : list DMatch)
  : option (list (point * point)) :=
  match ms with
  | [] => Some []
  | m :: ms' =>
      match nth_error kp1 (queryIdx m), nth_error kp2 (trainIdx m),
            matched_pairs kp1 kp2 ms' with
      | Some k1, Some k2, Some ps => Some ((pt k1, pt k2) :: ps)
      | _, _, _ => None
      end
  end.

End Measurer.

(* ================================================================= *)
(** ** Height-velocity solver *)

Module Solver.

Local Open Scope R_scope.
Local Open Scope result_scope.

Definition G_default : R := 6.67430E-11.
Definition R_default : R := 6.3781E6.
Definition M_default : R := 5.9722E24.

Definition calculate_v_from_h_with (h G Rb M : R) : result R :=
  let* q := truediv (G * M) (Rb + h) in
  math_sqrt q.

Definition calculate_v_from_h (h : R) : result R :=
  calculate_v_from_h_with h G_default R_default M_default.

Definition d_focale : R := 0.005.
Definition dim_sensore_x : R := 0.006287.
Definition n_pixel_x : R := 4056.

Definition n_iteration : nat := 8.

(** The body of [for _ in range(n_iteration)], run [n] times.  [v] is
    unbound until the first round has assigned it. *)
Fixpoint solver_rounds (n : nat)
    (average_feature_distance time_difference : R) (h : R) (v : option R)
  : result (option R * R) :=
  match n with
  | O => Ok (v, h)
  | S n' =>
      let* v' := calculate_v_from_h h in
      let* h' :=
        if Req_dec_T average_feature_distance 0 then Ok h
        else
          let* q := truediv v' (dim_sensore_x * average_feature_distance) in
          Ok (q * d_focale * n_pixel_x * time_difference) in
      solver_rounds n' average_feature_distance time_difference h' (Some v')
  end.

(** Lines 109-114 of [main], followed by the reads of [v] and [h]. *)
Definition solve (average_feature_distance time_difference : R)
  : result (R * R) :=
  let h := 400000 in
  let* vh := solver_rounds n_iteration average_feature_distance
               time_difference h None in
  match fst vh with
  | Some v => Ok (v, snd vh)
  | None => Raise UnboundLocalError
  end.

(** One round as the specification words it. *)
Definition spec_round (d dt h : R) : R * R :=
  let v := sqrt (G_default * M_default / (R_default + h)) in
  (v, if Req_dec_T d 0 then h
      else v * d_focale * n_pixel_x * dt / (dim_sensore_x * d)).

(** The altitude after [n] rounds from the seed of 400000 m. *)
Fixpoint spec_altitude (d dt : R) (n : nat) : R :=
  match n with
  | O => 400000
  | S n' => snd (spec_round d dt (spec_altitude d dt n'))
  end.

(** The velocity computed in round [n] (counting from 1). *)
Definition spec_velocity (d dt : R) (n : nat) : R :=
  fst (spec_round d dt (spec_altitude d dt (pred n))).

(** A velocity that is positive and below 7906 m/s, which no orbital speed
    above the ground reaches. *)
Definition plausible (v : R) : Prop := 0 < v < 7906.

(** A displacement that is zero, or between a millionth of a pixel and a
    million pixels. *)
Definition resolvable (d : R) : Prop :=
  d = 0 \/ 1 / 1000000 <= d <= 1000000.

(** An elapsed time between a microsecond and a million seconds. *)
Definition measurable (dt : R) : Prop :=
  1 / 1000000 <= dt <= 1000000.

(** The orbital speed at the seed altitude. *)
Definition seed_velocity : R :=
  sqrt (G_default * M_default / (R_default + 400000)).

End Solver.

(* ================================================================= *)
(** ** Aggregation of the velocity samples *)

Module Aggregator.

Local Open Scope R_scope.
Local Open Scope result_scope.

(** [sum(v_list)]. *)
Definition sum (l : list R) : R := fold_left Rplus l 0.

(** Lines 123-127 of [main]. *)
Definition estimate_kmps (v_list : list R) : result R :=
  let* estimate_mps :=
    if Nat.ltb 0 (List.length v_list)
    then truediv (sum v_list) (INR (List.length v_list))
    else Ok 7667.7 in
  truediv estimate_mps 1000.

(** Lines 130-133 of [main]. *)
Definition output_string (v_list : list R) : result string :=
  let* estimate_kmps := estimate_kmps v_list in
  Ok (format_4f estimate_kmps).

(** The arithmetic mean, as the specification words it. *)
Definition arithmetic_mean (l : list R) : R :=
  fold_right Rplus 0 l / INR (List.length l).

Definition is_digit (c : ascii) : bool :=
  (Nat.leb 48 (nat_of_ascii c) && Nat.leb (nat_of_ascii c) 57)%bool.

Fixpoint all_digits (s : string) : bool :=
  match s with
  | EmptyString => true
  | String c s' => (is_digit c && all_digits s')%bool
  end.

(** [fraction_digits s] is the number of characters after the first ['.'],
    when they are all digits and at least one digit stands before it. *)
Fixpoint fraction_digits_from (seen : bool) (s : string) : option nat :=
  match s with
  | EmptyString => None
  | String c s' =>
      if Ascii.eqb c "." then
        if (seen && all_digits s')%bool then Some (String.length s') else None
      else if is_digit c then fraction_digits_from true s'
      else None
  end.

Definition fraction_digits (s : string) : option nat :=
  match s with
  | EmptyString => None
  | String c s' =>
      if Ascii.eqb c "-" then fraction_digits_from false s'
      else fraction_digits_from false s
  end.

End Aggregator.

(* ================================================================= *)
(** ** The arithmetic in double precision *)

(** The numeric lines of the program once more, on IEEE 754 binary64
    numbers.  A decimal literal denotes the nearest double, as in Python. *)

Set Warnings "-inexact-float".

Module Binary64.

Local Open Scope float_scope.
Local Open Scope result_scope.

(** [x / y] on floats. *)
Definition truediv (x y : float) : result float :=
  if y =? 0 then Raise ZeroDivisionError else Ok (x / y).

(** [float(n)] for the length [n] of a list; exact below [2^53]. *)
Definition float_of_nat (n : nat) : float :=
  of_uint63 (Uint63.of_Z (Z.of_nat n)).

(** [x / n] for a float [x] and the length [n] of a list: [n] is converted
    to the nearest double, which is zero only when [n] is. *)
Definition truediv_int (x : float) (n : nat) : result float :=
  if Nat.eqb n 0 then Raise ZeroDivisionError else Ok (x / float_of_nat n).

(** [math.sqrt]. *)
Definition math_sqrt (x : float) : result float :=
  if x <? 0 then Raise ValueError else Ok (PrimFloat.sqrt x).

Definition point : Type := (float * float)%type.

Section Hypot.

(** [math.hypot] is a function of the C library, and its result is not
    fixed to the last bit; the functions that call it take it as a
    parameter. *)
Variable math_hypot : float -> float -> float.

(** The distance added for one element of [merged_coordinates]. *)
Definition pair_distance (coordinate : point * point) : float :=
  let x_difference := fst (fst coordinate) - fst (snd coordinate) in
  let y_difference := snd (fst coordinate) - snd (snd coordinate) in
  math_hypot x_difference y_difference.

Definition calculate_mean_distance (coordinates_1 coordinates_2 : list point)
  : result float :=
  let merged_coordinates := combine coordinates_1 coordinates_2 in
  let all_distances :=
    fold_left (fun acc coordinate => acc + pair_distance coordinate)
      merged_coordinates 0 in
  if negb (Nat.eqb (List.length merged_coordinates) 0)
  then truediv_int all_distances (List.length merged_coordinates)
  else Ok 0.

End Hypot.

Definition G_default : float := 6.67430E-11.
Definition R_default : float := 6.3781E6.
Definition M_default : float := 5.9722E24.

Definition calculate_v_from_h (h : float) : result float :=
  let* q := truediv (G_default * M_default) (R_default + h) in
  math_sqrt q.

Definition d_focale : float := 0.005.
Definition dim_sensore_x : float := 0.006287.
Definition n_pixel_x : float := 4056.

Definition n_iteration : nat := 8.

(** Line 114. *)
Definition altitude_update (v average_feature_distance time_difference : float)
  : result float :=
  let* q := truediv v (dim_sensore_x * average_feature_distance) in
  Ok (q * d_focale * n_pixel_x * time_difference).

(** The body of [for _ in range(n_iteration)], run [n] times. *)
Fixpoint solver_rounds (n : nat)
    (average_feature_distance time_difference : float)
    (h : float) (v : option float)
  : result (option float * float) :=
  match n with
  | O => Ok (v, h)
  | S n' =>
      let* v' := calculate_v_from_h h in
      let* h' :=
        if negb (average_feature_distance =? 0)
        then altitude_update v' average_feature_distance time_difference
        else Ok h in
      solver_rounds n' average_feature_distance time_difference h' (Some v')
  end.

(** Lines 109-114 of [main], followed by the reads of [v] and [h]. *)
Definition solve (average_feature_distance time_difference : float)
  : result (float * float) :=
  let h := 400000 in
  let* vh := solver_rounds n_iteration average_feature_distance
               time_difference h None in
  match fst vh with
  | Some v => Ok (v, snd vh)
  | None => Raise UnboundLocalError
  end.

(** The altitude after [n] rounds from the seed of 400000 m, as the
    specification words the rounds; a round can fault. *)
Fixpoint spec_altitude (d dt : float) (n : nat) : result float :=
  match n with
  | O => Ok 400000
  | S n' =>
      let* h := spec_altitude d dt n' in
      let* v := calculate_v_from_h h in
      if d =? 0 then Ok h else altitude_update v d dt
  end.

(** The velocity computed in round [n] (counting from 1). *)
Definition spec_velocity (d dt : float) (n : nat) : result float :=
  let* h := spec_altitude d dt (pred n) in
  calculate_v_from_h h.

(** The orbital speed at the seed altitude. *)
Definition seed_velocity : float := 7668.599333383719.

(** [sum(v_list)]: the samples are added from left to right, starting
    from 0 and rounding after every addition, as Python does up to
    version 3.11. *)
Definition sum (l : list float) : float :=
  fold_left (fun acc v => acc + v) l 0.

(** Lines 123-127 of [main]. *)
Definition estimate_kmps (v_list : list float) : result float :=
  let* estimate_mps :=
    if Nat.ltb 0 (List.length v_list)
    then truediv_int (sum v_list) (List.length v_list)
    else Ok 7667.7 in
  truediv estimate_mps 1000.

(** The integer nearest to [m * 2^e * 10^4], the even one on a tie. *)
Definition round_half_even_scaled (m : positive) (e : Z) : Z :=
  let n := (Z.pos m * 10000)%Z in
  if (0 <=? e)%Z then (n * 2 ^ e)%Z
  else
    let d := (2 ^ (- e))%Z in
    let q := (n / d)%Z in
    let r := (n mod d)%Z in
    if (2 * r <? d)%Z then q
    else if (d <? 2 * r)%Z then (q + 1)%Z
    else if Z.even q then q else (q + 1)%Z.

Definition sign_string (s : bool) : string :=
  if s then "-"%string else ""%string.

(** The digits of [n] ten-thousandths. *)
Definition fixed_4 (s : bool) (n : Z) : string :=
  (sign_string s ++ str (n / 10000) ++ "." ++ zfill4 (n mod 10000))%string.

(** ["{:.4f}".format(x)]: the exact value of the double is rounded. *)
Definition format_4f (x : float) : string :=
  match Prim2SF x with
  | S754_nan => "nan"%string
  | S754_infinity s => (sign_string s ++ "inf")%string
  | S754_zero s => fixed_4 s 0
  | S754_finite s m e => fixed_4 s (round_half_even_scaled m e)
  end.

(** Lines 130-133 of [main]. *)
Definition output_string (v_list : list float) : result string :=
  let* estimate_kmps := estimate_kmps v_list in
  Ok (format_4f estimate_kmps).

(** The file [result.txt]: its content, when it exists, and the number of
    [write] calls that have succeeded on it. *)
Record result_txt : Type := mkFile {
  content : option string;
  written : nat
}.

(** What [open(file_path, 'w')] and [file.write] answer. *)
Record file_io : Type := mkFileIO {
  io_open : result unit;
  io_write : result unit
}.

(** Lines 123-137 of [main]: opening the file for writing empties it. *)
Definition finalize (v_list : list float) (w : file_io) (file : result_txt)
  : result unit * result_txt :=
  match output_string v_list with
  | Raise e => (Raise e, file)
  | Ok output_string =>
      match io_open w with
      | Raise e => (Raise e, file)
      | Ok _ =>
          match io_write w with
          | Raise e => (Raise e, mkFile (Some ""%string) (written file))
          | Ok _ => (Ok tt, mkFile (Some output_string) (S (written file)))
          end
      end
  end.

(** [n] is an integer nearest to [m * 2^e * 10^4], and even if that value
    lies halfway between two integers. *)
Definition nearest_even (m : positive) (e : Z) (n : Z) : Prop :=
  let a := (Z.pos m * 10000 * 2 ^ Z.max e 0)%Z in
  let b := (2 ^ Z.max (- e) 0)%Z in
  (2 * Z.abs (n * b - a) <= b)%Z
  /\ ((2 * Z.abs (n * b - a) = b)%Z -> Z.even n = true).

End Binary64.

(* ================================================================= *)
(** ** The acquisition loop and [main] *)

Module Acquisition.

Import Measurer Solver Aggregator.

Local Open Scope Z_scope.

(** The variables of [main] that outlive one pass through the loop, the
    module-level [images_deque], and what the run has done to its
    environment: the files removed by [os.unlink] in order, how often the
    camera was closed, and the content of [result.txt]. *)
Record state : Type := mkState {
  k : Z;
  now_time : Z;
  images_deque : list string;
  h_list : list R;
  v_list : list R;
  unlinked : list string;
  cam_closed : nat;
  result_file : option string;
  write_count : nat
}.

(** What the environment answers during one pass through the loop:
    the clock, [os.unlink] (when called), [cam.capture], the key points found
    by [convert_to_cv] and [calculate_features] in the previous and the new
    photo, and [brute_force.match] on their descriptors. *)
Record iteration_io : Type := mkIO {
  io_now : Z;
  io_unlink : result unit;
  io_capture : result unit;
  io_features : result (list KeyPoint * list KeyPoint);
  io_match : result (list DMatch)
}.

(** The environment of a whole run: the folder of the program, the two
    clock readings before the loop, a result file left by an earlier run,
    and the passes through the loop. *)
Record run_io : Type := mkRun {
  base_folder : string;
  io_start : Z;
  io_now0 : Z;
  io_prior_result : option string;
  io_iterations : list iteration_io
}.

Definition M (A : Type) : Type := state -> result A * state.

Definition ret {A : Type} (a : A) : M A := fun st => (Ok a, st).

Definition raise {A : Type} (e : exn) : M A := fun st => (Raise e, st).

Definition mbind {A B : Type} (m : M A) (f : A -> M B) : M B :=
  fun st =>
    match m st with
    | (Ok a, st') => f a st'
    | (Raise e, st') => (Raise e, st')
    end.

Definition lift {A : Type} (r : result A) : M A := fun st => (r, st).

Definition gets {A : Type} (f : state -> A) : M A := fun st => (Ok (f st), st).

Definition modify (f : state -> state) : M unit := fun st => (Ok tt, f st).

(** [try: m  except ...: handler]. *)
Definition try_except {A : Type} (m : M A) (handler : exn -> M A) : M A :=
  fun st =>
    match m st with
    | (Ok a, st') => (Ok a, st')
    | (Raise e, st') => handler e st'
    end.

Declare Scope py_scope.
Delimit Scope py_scope with py.
Notation "x <- m ;; f" := (mbind m (fun x => f))
  (at level 61, m at next level, right associativity) : py_scope.
Notation "m ;; f" := (mbind m (fun _ => f))
  (at level 61, right associativity) : py_scope.
Local Open Scope py_scope.

Definition set_k (n : Z) (st : state) : state :=
  mkState n (now_time st) (images_deque st) (h_list st) (v_list st)
    (unlinked st) (cam_closed st) (result_file st) (write_count st).

Definition set_now_time (t : Z) (st : state) : state :=
  mkState (k st) t (images_deque st) (h_list st) (v_list st)
    (unlinked st) (cam_closed st) (result_file st) (write_count st).

Definition set_images_deque (d : list string) (st : state) : state :=
  mkState (k st) (now_time st) d (h_list st) (v_list st)
    (unlinked st) (cam_closed st) (result_file st) (write_count st).

Definition set_h_list (l : list R) (st : state) : state :=
  mkState (k st) (now_time st) (images_deque st) l (v_list st)
    (unlinked st) (cam_closed st) (result_file st) (write_count st).

Definition set_v_list (l : list R) (st : state) : state :=
  mkState (k st) (now_time st) (images_deque st) (h_list st) l
    (unlinked st) (cam_closed st) (result_file st) (write_count st).

Definition set_unlinked (l : list string) (st : state) : state :=
  mkState (k st) (now_time st) (images_deque st) (h_list st) (v_list st)
    l (cam_closed st) (result_file st) (write_count st).

Definition set_cam_closed (n : nat) (st : state) : state :=
  mkState (k st) (now_time st) (images_deque st) (h_list st) (v_list st)
    (unlinked st) n (result_file st) (write_count st).

Definition set_result_file (s : string) (st : state) : state :=
  mkState (k st) (now_time st) (images_deque st) (h_list st) (v_list st)
    (unlinked st) (cam_closed st) (Some s) (S (write_count st)).

(** [images_deque.popleft()]. *)
Definition deque_popleft : M string :=
  fun st =>
    match images_deque st with
    | [] => (Raise IndexError, st)
    | p :: d => (Ok p, set_images_deque d st)
    end.

(** [os.unlink(p)]. *)
Definition os_unlink (w : iteration_io) (p : string) : M unit :=
  lift (io_unlink w) ;;
  modify (fun st => set_unlinked (unlinked st ++ [p]) st).

(** [images_deque.append(p)]. *)
Definition deque_append (p : string) : M unit :=
  modify (fun st => set_images_deque (images_deque st ++ [p]) st).

Definition v_list_append (v : R) : M unit :=
  modify (fun st => set_v_list (v_list st ++ [v]) st).

Definition h_list_append (h : R) : M unit :=
  modify (fun st => set_h_list (h_list st ++ [h]) st).

(** [f"{base_folder}/img/photo_{k}.jpg"]. *)
Definition photo_path (base : string) (n : Z) : string :=
  (base ++ "/img/photo_" ++ str n ++ ".jpg")%string.

(** Lines 105-114: from the matches to the solver's [v] and [h]. *)
Definition measure_and_solve (w : iteration_io)
    (keypoints_1 keypoints_2 : list KeyPoint) (time_difference : R)
  : result (R * R) :=
  (let* matches := calculate_matches (io_match w) in
   let* coordinates :=
     find_matching_coordinates keypoints_1 keypoints_2 matches in
   let* average_feature_distance :=
     calculate_mean_distance (fst coordinates) (snd coordinates) in
   solve average_feature_distance time_difference)%result.

(** The mean displacement measured for the frame pair of a pass. *)
Definition measured_displacement (w : iteration_io)
    (keypoints_1 keypoints_2 : list KeyPoint) : result R :=
  (let* matches := calculate_matches (io_match w) in
   let* coordinates :=
     find_matching_coordinates keypoints_1 keypoints_2 matches in
   calculate_mean_distance (fst coordinates) (snd coordinates))%result.

(** The [except (cv2.error, ZeroDivisionError): pass] clause. *)
Definition except_pass (e : exn) : M unit :=
  match e with
  | cv2_error | ZeroDivisionError => ret tt
  | _ => raise e
  end.

(** Lines 102-118: the comparison of the previous photo with the new one,
    given the time elapsed between them. *)
Definition compare_photos (w : iteration_io) (time_difference : R) : M unit :=
  kps <- lift (io_features w) ;;
  try_except
    (vh <- lift (measure_and_solve w (fst kps) (snd kps) time_difference) ;;
     v_list_append (fst vh) ;;
     h_list_append (snd vh))
    except_pass.

(** Lines 86-118: one pass through the [while] loop. *)
Definition loop_body (base : string) (w : iteration_io) : M unit :=
  modify (fun st => set_k (k st + 1) st) ;;
  k <- gets k ;;
  let image_path := photo_path base k in
  previous_time <- gets now_time ;;
  modify (set_now_time (io_now w)) ;;
  now_time <- gets now_time ;;
  n <- gets (fun st => List.length (images_deque st)) ;;
  (if Nat.leb 42 n
   then (p <- deque_popleft ;; os_unlink w p)
   else ret tt) ;;
  lift (io_capture w) ;;
  deque_append image_path ;;
  if negb (k =? 0) then
    let time_difference := total_seconds (now_time - previous_time) in
    compare_photos w time_difference
  else ret tt.

(** The state reached after line 94 when neither [os.unlink] nor
    [cam.capture] raises: the counter and the clock advanced, the oldest
    path evicted and deleted if 42 were held, the new path appended. *)
Definition after_capture (base : string) (w : iteration_io) (st : state)
  : state :=
  let full := Nat.leb 42 (List.length (images_deque st)) in
  mkState (k st + 1) (io_now w)
    ((if full then tl (images_deque st) else images_deque st)
       ++ [photo_path base (k st + 1)])
    (h_list st) (v_list st)
    (unlinked st ++ (if full then firstn 1 (images_deque st) else []))
    (cam_closed st) (result_file st) (write_count st).

(** [os.unlink] and [cam.capture] succeed in this pass. *)
Definition capture_succeeds (w : iteration_io) (st : state) : Prop :=
  (Nat.leb 42 (List.length (images_deque st)) = true -> io_unlink w = Ok tt)
  /\ io_capture w = Ok tt.

(** The paths of the [n] photos numbered from [a] on, in order. *)
Definition photos (base : string) (a n : nat) : list string :=
  map (fun i => photo_path base (Z.of_nat i)) (seq a n).

(** The frame buffer when [N] photos have been taken: it holds the newest
    [min N 42] of them, and the [N - 42] older ones have been deleted,
    oldest first. *)
Definition buffer_after (base : string) (N : nat) (st : state) : Prop :=
  k st = Z.of_nat N - 1
  /\ images_deque st = photos base (N - 42) (Nat.min N 42)
  /\ unlinked st = photos base 0 (N - 42).

(** Two states that differ at most in [h_list]. *)
Definition same_but_h_list (st1 st2 : state) : Prop :=
  k st1 = k st2 /\ now_time st1 = now_time st2
  /\ images_deque st1 = images_deque st2 /\ v_list st1 = v_list st2
  /\ unlinked st1 = unlinked st2 /\ cam_closed st1 = cam_closed st2
  /\ result_file st1 = result_file st2
  /\ write_count st1 = write_count st2.

(** [timedelta(minutes=9)], in microseconds. *)
Definition nine_minutes : Z := 9 * 60 * 1000000.

(** The [while] loop, driven by the passes the environment provides.  The
    answer is [true] when the loop condition was found false, and [false]
    when the run is still inside the loop after the last provided pass. *)
Fixpoint main_loop (base : string) (start_time : Z) (ws : list iteration_io)
  : M bool :=
  fun st =>
    if now_time st <? start_time + nine_minutes then
      match ws with
      | [] => (Ok false, st)
      | w :: ws' =>
          (loop_body base w ;; main_loop base start_time ws') st
      end
    else (Ok true, st).

(** Two readings of the clock, the second later than the first by at most
    a million seconds. *)
Definition ticks (t t' : Z) : Prop :=
  t < t' <= t + 1000000000000.

(** The displacement measured in a pass, whenever the pass measures one,
    is [resolvable]. *)
Definition resolvable_pass (w : iteration_io) : Prop :=
  forall kps d,
    io_features w = Ok kps ->
    measured_displacement w (fst kps) (snd kps) = Ok d ->
    Solver.resolvable d.

(** [cam.close()]. *)
Definition cam_close : M unit :=
  modify (fun st => set_cam_closed (S (cam_closed st)) st).

(** Lines 123-137: the estimate and the write of [result.txt].  The file
    is taken to be writable here; [Binary64.finalize] has the cases in
    which it is not. *)
Definition finalize : M unit :=
  v_list <- gets v_list ;;
  output_string <- lift (output_string v_list) ;;
  modify (set_result_file output_string).

Definition initial_state (h_seed : R) (io : run_io) : state :=
  mkState (-1) (io_now0 io) [] [h_seed] [] [] 0 (io_prior_result io) 0.

(** [main], with the first element of [h_list] as a parameter. *)
Definition main_from (h_seed : R) (io : run_io) : result bool * state :=
  (exited <- main_loop (base_folder io) (io_start io) (io_iterations io) ;;
   if exited : bool then (cam_close ;; finalize ;; ret true)
   else ret false)
    (initial_state h_seed io).

Definition main (io : run_io) : result bool * state :=
  main_from 418000%R io.

End Acquisition.

(* ================================================================= *)
(** ** Concrete runs *)

Module Scenario.

Import Measurer Solver Acquisition.

Local Open Scope Z_scope.

Definition folder : string := "/home/astro".

(** The state at the end of the first pass, entered at time [t]. *)
Definition after_first_photo (t : Z) : state :=
  mkState 0 t [photo_path folder 0] [418000%R] [] [] 0 None 0.

Definition corner : KeyPoint := mkKeyPoint (100, 200)%R.

(** The same photo taken twice, one second after [after_first_photo 0]:
    one key point, matched with itself. *)
Definition identical_pair : iteration_io :=
  mkIO 1000000 (Ok tt) (Ok tt) (Ok ([corner], [corner]))
    (Ok [mkDMatch 0 0 0%R]).

(** A pass at time [t] in which the matcher finds no correspondence. *)
Definition no_match_pair (t : Z) : iteration_io :=
  mkIO t (Ok tt) (Ok tt) (Ok ([], [])) (Ok []).

(** A pass at time [t] in which [brute_force.match] raises [cv2.error]. *)
Definition matcher_fault (t : Z) : iteration_io :=
  mkIO t (Ok tt) (Ok tt) (Ok ([], [])) (Raise cv2_error).

(** A pass at time [t] in which [cam.capture] raises. *)
Definition capture_fault (t : Z) : iteration_io :=
  mkIO t (Ok tt) (Raise PiCameraError) (Ok ([], [])) (Ok []).

(** A pass at time [t] in which [detectAndCompute] raises [cv2.error]. *)
Definition detector_fault (t : Z) : iteration_io :=
  mkIO t (Ok tt) (Ok tt) (Raise cv2_error) (Ok []).



(** Two features, one moved by three and one by four pixels, with the
    matches listed in either order. *)
Definition two_matches (swapped : bool) : iteration_io :=
  mkIO 1000000 (Ok tt) (Ok tt)
    (Ok ([mkKeyPoint (3, 0)%R; mkKeyPoint (0, 4)%R],
         [mkKeyPoint (0, 0)%R; mkKeyPoint (0, 0)%R]))
    (Ok (if swapped
         then [mkDMatch 1 1 7%R; mkDMatch 0 0 5%R]
         else [mkDMatch 0 0 5%R; mkDMatch 1 1 7%R])).

(** Three passes, the second of which cannot capture. *)
Definition run_with_capture_fault : run_io :=
  mkRun folder 0 0 None
    [no_match_pair 1000000; capture_fault 2000000; no_match_pair 3000000].

(** Three passes, the second of which cannot detect features. *)
Definition run_with_detector_fault : run_io :=
  mkRun folder 0 0 None
    [no_match_pair 1000000; detector_fault 2000000; no_match_pair 3000000].

(** Forty-four passes one second apart, the matcher failing each time. *)
Definition long_run : run_io :=
  mkRun folder 0 0 None
    (map (fun i => matcher_fault (Z.of_nat i * 1000000)) (seq 1 44)).

(** One pass, entered ten minutes after the start. *)
Definition finished_run : run_io :=
  mkRun folder 0 0 None [no_match_pair 600000000].

(** Three features that move by (0, 1), by (1, 1) and by (1, 3) pixels
    from the first photo to the second. *)
Definition three_features_before : list Binary64.point :=
  [(100, 200); (300, 150); (40, 60)]%float.

Definition three_features_after : list Binary64.point :=
  [(100, 201); (301, 151); (41, 63)]%float.

(** A [hypot] that squares, adds and takes the root in doubles.  For
    differences that are small integers the squares and their sum are
    exact, and the result is the correctly rounded root, which is also what
    [math.hypot] returns. *)
Definition hypot_by_squares (x y : float) : float :=
  PrimFloat.sqrt (x * x + y * y)%float.

End Scenario.

(* ================================================================= *)
(** * Properties *)

Import Measurer Solver Aggregator Acquisition.

(* ----------------------------------------------------------------- *)
(** ** Arithmetic that does not trap *)

Section Arithmetic.

Local Open Scope R_scope.

Lemma truediv_ok x y : y <> 0 -> truediv x y = Ok (x / y).
Proof.
  intros H. unfold truediv.
  destruct (Req_dec_T y 0); [contradiction | reflexivity].
Qed.


Lemma math_sqrt_ok x : 0 <= x -> math_sqrt x = Ok (sqrt x).
Proof.
  intros H. unfold math_sqrt. destruct (Rlt_dec x 0); [lra | reflexivity].
Qed.


Lemma GM_pos : 0 < G_default * M_default.
Proof. unfold G_default, M_default. lra. Qed.

Lemma R_default_pos : 0 < R_default.
Proof. unfold R_default. lra. Qed.

Lemma d_focale_pos : 0 < d_focale.
Proof. unfold d_focale. lra. Qed.

Lemma n_pixel_x_pos : 0 < n_pixel_x.
Proof. unfold n_pixel_x. lra. Qed.

Lemma dim_sensore_x_pos : 0 < dim_sensore_x.
Proof. unfold dim_sensore_x. lra. Qed.

Lemma orbital_ratio_pos h :
  0 <= h -> 0 < G_default * M_default / (R_default + h).
Proof.
  intros Hh. apply Rdiv_lt_0_compat; [apply GM_pos|].
  pose proof R_default_pos. lra.
Qed.

Lemma calculate_v_from_h_ok h :
  0 <= h ->
  calculate_v_from_h h = Ok (sqrt (G_default * M_default / (R_default + h))).
Proof.
  intros Hh. unfold calculate_v_from_h, calculate_v_from_h_with.
  pose proof R_default_pos.
  rewrite truediv_ok by lra. cbn [bind].
  apply math_sqrt_ok. left. now apply orbital_ratio_pos.
Qed.

End Arithmetic.

(* ----------------------------------------------------------------- *)
(** ** The solver *)

Section SolverRounds.

Local Open Scope R_scope.

Variables d dt : R.
Hypothesis d_nonneg : 0 <= d.
Hypothesis dt_pos : 0 < dt.

Lemma spec_round_nonneg h : 0 <= h -> 0 <= snd (spec_round d dt h).
Proof.
  intros Hh. unfold spec_round. cbn [snd].
  destruct (Req_dec_T d 0) as [E | N]; [exact Hh|].
  assert (Hv : 0 < sqrt (G_default * M_default / (R_default + h)))
    by (apply sqrt_lt_R0; now apply orbital_ratio_pos).
  pose proof d_focale_pos. pose proof n_pixel_x_pos.
  pose proof dim_sensore_x_pos.
  left. apply Rdiv_lt_0_compat.
  - apply Rmult_lt_0_compat; [|assumption].
    apply Rmult_lt_0_compat; [|assumption].
    apply Rmult_lt_0_compat; assumption.
  - apply Rmult_lt_0_compat; lra.
Qed.

Lemma spec_altitude_nonneg n : 0 <= spec_altitude d dt n.
Proof.
  induction n as [|n IH]; cbn [spec_altitude].
  - lra.
  - now apply spec_round_nonneg.
Qed.

(** One pass through the [for] body is one round of the specification. *)
Lemma solver_round_step n h v :
  0 <= h ->
  solver_rounds (S n) d dt h v
  = solver_rounds n d dt (snd (spec_round d dt h))
      (Some (fst (spec_round d dt h))).
Proof.
  intros Hh. cbn [solver_rounds].
  rewrite calculate_v_from_h_ok by exact Hh. cbn [bind].
  unfold spec_round. cbn [fst snd].
  destruct (Req_dec_T d 0) as [E | N]; cbn [bind].
  - reflexivity.
  - pose proof dim_sensore_x_pos.
    rewrite truediv_ok.
    + cbn [bind]. f_equal. field. split; lra.
    + intros Hz. apply Rmult_integral in Hz. lra.
Qed.

(** [n] further rounds started after round [m]. *)
Lemma solver_rounds_from n : forall m v,
  solver_rounds n d dt (spec_altitude d dt m) v
  = Ok (match n with
        | O => v
        | S _ => Some (spec_velocity d dt (m + n))
        end, spec_altitude d dt (m + n)).
Proof.
  induction n as [|n IH]; intros m v.
  - cbn [solver_rounds]. now rewrite Nat.add_0_r.
  - rewrite solver_round_step by apply spec_altitude_nonneg.
    change (snd (spec_round d dt (spec_altitude d dt m)))
      with (spec_altitude d dt (S m)).
    rewrite IH. replace (S m + n)%nat with (m + S n)%nat by lia.
    destruct n as [|n']; [|reflexivity].
    unfold spec_velocity. now rewrite Nat.add_1_r.
Qed.

Lemma solver_rounds_solve :
  solve d dt = Ok (spec_velocity d dt 8, spec_altitude d dt 8).
Proof.
  unfold solve, n_iteration.
  change 400000 with (spec_altitude d dt 0).
  now rewrite (solver_rounds_from 8 0 None).
Qed.

End SolverRounds.

(* ----------------------------------------------------------------- *)
(** ** The solver in double precision *)

Section SolverRounds64.

Local Open Scope float_scope.
Local Open Scope result_scope.

Variables d dt : float.









End SolverRounds64.


(* ----------------------------------------------------------------- *)
(** ** The mean displacement *)

Section MeanDistance.

Local Open Scope R_scope.

Lemma fold_left_plus_total {A : Type} (f : A -> R) (l : list A) : forall a,
  fold_left (fun acc x => acc + f x) l a = a + total (map f l).
Proof.
  induction l as [|x l IH]; intros a; cbn.
  - lra.
  - rewrite IH. unfold total. lra.
Qed.

Lemma pair_distance_euclidean c :
  pair_distance c
  = sqrt ((fst (fst c) - fst (snd c)) ^ 2 + (snd (fst c) - snd (snd c)) ^ 2).
Proof.
  unfold pair_distance, math_hypot. f_equal. ring.
Qed.

(** [calculate_mean_distance] never faults: it answers 0 on no pair and
    the mean of the Euclidean distances otherwise. *)
Lemma calculate_mean_distance_mean (c1 c2 : list point) :
  calculate_mean_distance c1 c2
  = Ok (match combine c1 c2 with
        | [] => 0
        | c :: ps => mean_euclidean_distance (c :: ps)
        end).
Proof.
  unfold calculate_mean_distance.
  destruct (combine c1 c2) as [|c l]; [reflexivity|].
  cbn [List.length Nat.eqb negb].
  rewrite truediv_ok by (apply not_0_INR; discriminate).
  f_equal. unfold mean_euclidean_distance. cbn [List.length]. f_equal.
  rewrite fold_left_plus_total, Rplus_0_l. unfold total. f_equal.
  apply map_ext. intros a. apply pair_distance_euclidean.
Qed.

Lemma combine_fst_snd {A B : Type} (l : list (A * B)) :
  combine (map fst l) (map snd l) = l.
Proof.
  induction l as [|[a b] l IH]; cbn; [reflexivity | now rewrite IH].
Qed.

Lemma calculate_mean_distance_merged (pairs : list (point * point)) :
  calculate_mean_distance (map fst pairs) (map snd pairs)
  = Ok (match pairs with
        | [] => 0
        | c :: ps => mean_euclidean_distance (c :: ps)
        end).
Proof.
  now rewrite calculate_mean_distance_mean, combine_fst_snd.
Qed.

Lemma mean_euclidean_distance_nonneg l : 0 <= mean_euclidean_distance l.
Proof.
  unfold mean_euclidean_distance.
  assert (H : 0 <= fold_right Rplus 0
                 (map (fun c : point * point =>
                         sqrt ((fst (fst c) - fst (snd c)) ^ 2
                               + (snd (fst c) - snd (snd c)) ^ 2)) l)).
  { induction l as [|c l IH]; cbn [map fold_right]; [lra|].
    pose proof (sqrt_pos ((fst (fst c) - fst (snd c)) ^ 2
                          + (snd (fst c) - snd (snd c)) ^ 2)). lra. }
  destruct l as [|c l].
  - cbn. lra.
  - apply Rmult_le_pos; [exact H|].
    left. apply Rinv_0_lt_compat. apply lt_0_INR. cbn. lia.
Qed.

Lemma find_matching_coordinates_loop_pairs kp1 kp2 ms : forall c1 c2,
  find_matching_coordinates_loop kp1 kp2 ms c1 c2
  = match matched_pairs kp1 kp2 ms with
    | Some ps => Ok (c1 ++ map fst ps, c2 ++ map snd ps)
    | None => Raise IndexError
    end.
Proof.
  induction ms as [|m ms IH]; intros c1 c2; cbn.
  - now rewrite !app_nil_r.
  - unfold getitem.
    destruct (nth_error kp1 (queryIdx m)) as [k1|]; cbn; [|reflexivity].
    destruct (nth_error kp2 (trainIdx m)) as [k2|]; cbn; [|reflexivity].
    rewrite IH.
    destruct (matched_pairs kp1 kp2 ms) as [ps|]; [|reflexivity].
    cbn. now rewrite <- !app_assoc.
Qed.

Lemma find_matching_coordinates_pairs kp1 kp2 ms :
  find_matching_coordinates kp1 kp2 ms
  = match matched_pairs kp1 kp2 ms with
    | Some ps => Ok (map fst ps, map snd ps)
    | None => Raise IndexError
    end.
Proof.
  unfold find_matching_coordinates.
  now rewrite find_matching_coordinates_loop_pairs.
Qed.

Lemma insert_by_distance_permutation m l :
  Permutation (insert_by_distance m l) (m :: l).
Proof.
  induction l as [|m' l IH]; cbn.
  - apply Permutation_refl.
  - destruct (Rle_dec (distance m) (distance m')).
    + apply Permutation_refl.
    + eapply Permutation_trans; [apply perm_skip, IH | apply perm_swap].
Qed.

Lemma sorted_by_distance_permutation l :
  Permutation (sorted_by_distance l) l.
Proof.
  induction l as [|m l IH]; cbn.
  - apply Permutation_refl.
  - eapply Permutation_trans; [apply insert_by_distance_permutation|].
    now apply perm_skip.
Qed.

(** The displacement measured from a list of matches. *)
Lemma measured_displacement_pairs w kp1 kp2 ms :
  io_match w = Ok ms ->
  measured_displacement w kp1 kp2
  = match matched_pairs kp1 kp2 (sorted_by_distance ms) with
    | Some [] => Ok 0
    | Some (c :: ps) => Ok (mean_euclidean_distance (c :: ps))
    | None => Raise IndexError
    end.
Proof.
  intros E. unfold measured_displacement, calculate_matches.
  rewrite E. cbn [bind]. rewrite find_matching_coordinates_pairs.
  destruct (matched_pairs kp1 kp2 (sorted_by_distance ms)) as [ps|];
    [|reflexivity].
  cbn [bind fst snd]. rewrite calculate_mean_distance_merged.
  now destruct ps.
Qed.

(** A measured displacement is never negative. *)
Lemma measured_displacement_nonneg w kp1 kp2 d :
  measured_displacement w kp1 kp2 = Ok d -> 0 <= d.
Proof.
  unfold measured_displacement. intros H.
  destruct (calculate_matches (io_match w)) as [ms | e]; [|discriminate].
  cbn [bind] in H.
  destruct (find_matching_coordinates kp1 kp2 ms) as [cs | e];
    [|discriminate].
  cbn [bind] in H. rewrite calculate_mean_distance_mean in H.
  injection H as <-.
  destruct (combine (fst cs) (snd cs)); [lra|].
  apply mean_euclidean_distance_nonneg.
Qed.

End MeanDistance.

(** The same computation in doubles: the distances are added from left to
    right and the sum is divided by their number. *)
Lemma calculate_mean_distance_sum64
    (hypot : float -> float -> float) (c1 c2 : list Binary64.point) :
  Binary64.calculate_mean_distance hypot c1 c2
  = Ok (match combine c1 c2 with
        | [] => 0
        | c :: ps =>
            fold_left (fun acc c' => acc + Binary64.pair_distance hypot c')
              (c :: ps) 0
            / Binary64.float_of_nat (List.length (c :: ps))
        end)%float.
Proof.
  unfold Binary64.calculate_mean_distance.
  destruct (combine c1 c2); reflexivity.
Qed.

(** C8, as the code has it: whatever [math.hypot] returns for the
    coordinate differences of a pair, the displacement is the sum of these
    distances over all coordinate pairs, each taken once and with the same
    weight, added from left to right in double precision and divided by
    their number; in exact arithmetic this is the arithmetic mean of the
    Euclidean distances.  The rounded result depends on the order of the
    pairs: with distances 1, [sqrt 2] and [sqrt 10] it is
    1.8588304075138247 in this order and 1.858830407513825 in the reverse
    order.  On zero correspondences the guard answers exactly 0, and no
    input makes the computation fault. *)
Theorem mean_displacement_is_left_to_right_mean :
  (forall (hypot : float -> float -> float) (c1 c2 : list Binary64.point),
      Binary64.calculate_mean_distance hypot c1 c2
      = Ok (match combine c1 c2 with
            | [] => 0
            | c :: ps =>
                fold_left
                  (fun acc c' => acc + Binary64.pair_distance hypot c')
                  (c :: ps) 0
                / Binary64.float_of_nat (List.length (c :: ps))
            end)%float)
  /\ (forall (hypot : float -> float -> float) (x1 y1 x2 y2 : float),
         Binary64.pair_distance hypot ((x1, y1), (x2, y2))
         = hypot (x1 - x2)%float (y1 - y2)%float)
  /\ (forall hypot : float -> float -> float,
         hypot 0 1 = 1 ->
         hypot 1 1 = 1.4142135623730951 ->
         hypot 1 3 = 3.1622776601683795 ->
         Binary64.calculate_mean_distance hypot
           Scenario.three_features_after Scenario.three_features_before
         = Ok 1.8588304075138247
         /\ Binary64.calculate_mean_distance hypot
              (rev Scenario.three_features_after)
              (rev Scenario.three_features_before)
            = Ok 1.858830407513825)%float
  /\ (forall c1 c2 : list point,
         calculate_mean_distance c1 c2
         = Ok (match combine c1 c2 with
               | [] => 0%R
               | c :: ps => mean_euclidean_distance (c :: ps)
               end))
  /\ (forall w kp1 kp2,
         io_match w = Ok [] -> measured_displacement w kp1 kp2 = Ok 0%R)
  /\ (forall hypot : float -> float -> float,
         Binary64.calculate_mean_distance hypot [] [] = Ok 0%float)
  /\ calculate_mean_distance [] [] = Ok 0%R.
Proof.
  split; [|split; [|split; [|split; [|split; [|split]]]]].
  - apply calculate_mean_distance_sum64.
  - reflexivity.
  - intros hypot H1 H2 H3. split.
    + vm_compute. rewrite H1, H2, H3. vm_compute. reflexivity.
    + vm_compute. rewrite H1, H2, H3. vm_compute. reflexivity.
  - apply calculate_mean_distance_mean.
  - intros w kp1 kp2 E.
    now rewrite (measured_displacement_pairs w kp1 kp2 [] E).
  - reflexivity.
  - reflexivity.
Qed.

(* ----------------------------------------------------------------- *)
(** ** Formatting and the final estimate *)

Section Formatting.

Lemma is_digit_not_point c : is_digit c = true -> Ascii.eqb c "." = false.
Proof.
  intros H. destruct (Ascii.eqb_spec c "."%char) as [E | N]; [|reflexivity].
  subst c. discriminate H.
Qed.

Lemma is_digit_not_minus c : is_digit c = true -> Ascii.eqb c "-" = false.
Proof.
  intros H. destruct (Ascii.eqb_spec c "-"%char) as [E | N]; [|reflexivity].
  subst c. discriminate H.
Qed.

Lemma digit_char_is_digit (d : Z) :
  (0 <= d < 10)%Z -> is_digit (digit_char d) = true.
Proof.
  intros H.
  assert (C : (d = 0 \/ d = 1 \/ d = 2 \/ d = 3 \/ d = 4 \/ d = 5 \/ d = 6
               \/ d = 7 \/ d = 8 \/ d = 9)%Z) by lia.
  repeat (destruct C as [C | C]; [subst d; reflexivity|]).
  subst d. reflexivity.
Qed.

Lemma zfill4_digits (n : Z) :
  all_digits (zfill4 n) = true /\ String.length (zfill4 n) = 4%nat.
Proof.
  split; [|reflexivity].
  unfold zfill4. cbn [all_digits].
  rewrite !digit_char_is_digit by (apply Z.mod_pos_bound; lia).
  reflexivity.
Qed.

Lemma string_of_uint_digits (d : Decimal.uint) :
  all_digits (NilEmpty.string_of_uint d) = true.
Proof.
  induction d; cbn [NilEmpty.string_of_uint all_digits];
    try reflexivity; rewrite IHd; reflexivity.
Qed.

Lemma string_of_uint_nonempty (d : Decimal.uint) :
  NilZero.string_of_uint d <> EmptyString.
Proof. destruct d; discriminate. Qed.

(** [str] of a natural number is a non-empty run of digits. *)
Lemma str_nonneg_digits (n : Z) :
  (0 <= n)%Z -> all_digits (str n) = true /\ str n <> EmptyString.
Proof.
  intros Hn. unfold str.
  destruct n as [| p | p]; [split; [reflexivity | discriminate] | | lia].
  cbn [Z.to_int NilZero.string_of_int]. split.
  - unfold NilZero.string_of_uint.
    destruct (Pos.to_uint p) eqn:E; try reflexivity;
      rewrite <- E; apply string_of_uint_digits.
  - apply string_of_uint_nonempty.
Qed.

Lemma fraction_digits_from_run (s t : string) : forall seen,
  all_digits s = true -> all_digits t = true ->
  seen = true \/ s <> EmptyString ->
  fraction_digits_from seen (s ++ String "." t) = Some (String.length t).
Proof.
  induction s as [|c s IH]; intros seen Hs Ht Hne.
  - destruct Hne as [-> | Hne]; [|contradiction].
    cbn. now rewrite Ht.
  - cbn in Hs. apply andb_true_iff in Hs as [Hc Hs].
    cbn [append fraction_digits_from].
    rewrite (is_digit_not_point c Hc), Hc.
    apply IH; auto.
Qed.

Lemma fraction_digits_signed (sign s t : string) :
  sign = EmptyString \/ sign = "-"%string ->
  all_digits s = true -> s <> EmptyString -> all_digits t = true ->
  fraction_digits (sign ++ s ++ String "." t) = Some (String.length t).
Proof.
  intros Hsign Hs Hne Ht. destruct Hsign as [-> | ->].
  - cbn [append]. destruct s as [|c s]; [contradiction|].
    cbn [append fraction_digits].
    assert (Hc : is_digit c = true)
      by (cbn in Hs; now apply andb_true_iff in Hs as [Hc _]).
    rewrite (is_digit_not_minus c Hc).
    change (String c (s ++ String "." t))
      with (String c s ++ String "." t)%string.
    apply fraction_digits_from_run;
      [assumption | assumption | right; discriminate].
  - cbn [append fraction_digits]. cbn [Ascii.eqb Bool.eqb].
    apply fraction_digits_from_run; auto.
Qed.

Lemma sum_total (l : list R) : Aggregator.sum l = total l.
Proof.
  unfold Aggregator.sum.
  assert (H : forall a, fold_left Rplus l a = (a + total l)%R).
  { induction l as [|x l IH]; intros a; cbn [fold_left].
    - unfold total. cbn. lra.
    - rewrite IH. unfold total. cbn. lra. }
  rewrite H. lra.
Qed.

Lemma estimate_kmps_nonempty v vs :
  estimate_kmps (v :: vs) = Ok (arithmetic_mean (v :: vs) / 1000)%R.
Proof.
  unfold estimate_kmps. cbn [List.length Nat.ltb Nat.leb].
  rewrite truediv_ok by (apply not_0_INR; discriminate).
  cbn [bind]. rewrite truediv_ok by lra.
  unfold arithmetic_mean. rewrite sum_total. reflexivity.
Qed.

Lemma estimate_kmps_empty : estimate_kmps [] = Ok (7667.7 / 1000)%R.
Proof.
  unfold estimate_kmps. cbn [List.length Nat.ltb Nat.leb bind].
  now rewrite truediv_ok by lra.
Qed.

(** [output_string] never faults. *)
Lemma output_string_total (l : list R) :
  exists x, estimate_kmps l = Ok x /\ output_string l = Ok (format_4f x).
Proof.
  unfold output_string. destruct l as [|v vs].
  - rewrite estimate_kmps_empty. eauto.
  - rewrite estimate_kmps_nonempty. eauto.
Qed.

End Formatting.

(* ----------------------------------------------------------------- *)
(** ** Formatting and the final estimate in double precision *)

Section Formatting64.

Lemma round_half_even_scaled_nearest m e :
  Binary64.nearest_even m e (Binary64.round_half_even_scaled m e).
Proof.
  unfold Binary64.nearest_even, Binary64.round_half_even_scaled.
  destruct (Z.leb_spec 0 e) as [He | He].
  - rewrite (Z.max_l e 0), (Z.max_r (- e) 0) by lia.
    rewrite Z.pow_0_r, Z.mul_1_r, Z.sub_diag. cbn. split; lia.
  - rewrite (Z.max_r e 0), (Z.max_l (- e) 0) by lia.
    rewrite Z.pow_0_r, Z.mul_1_r.
    set (N := (Z.pos m * 10000)%Z). set (D := (2 ^ (- e))%Z).
    assert (HD : (0 < D)%Z) by (apply Z.pow_pos_nonneg; lia).
    pose proof (Z.div_mod N D) as EN.
    pose proof (Z.mod_pos_bound N D HD) as Hr.
    set (q := (N / D)%Z) in *. set (r := (N mod D)%Z) in *.
    assert (EN' : (N = q * D + r)%Z) by lia.
    destruct (Z.ltb_spec (2 * r) D) as [H1 | H1]; [split; lia|].
    destruct (Z.ltb_spec D (2 * r)) as [H2 | H2]; [split; lia|].
    destruct (Z.even q) eqn:Eq.
    + split; [lia | intros _; exact Eq].
    + split; [lia|]. intros _.
      rewrite Z.even_add, Eq. reflexivity.
Qed.

(** There is one such integer only. *)
Lemma nearest_even_unique m e n n' :
  Binary64.nearest_even m e n -> Binary64.nearest_even m e n' -> n = n'.
Proof.
  unfold Binary64.nearest_even. cbn zeta.
  set (a := (Z.pos m * 10000 * 2 ^ Z.max e 0)%Z).
  set (b := (2 ^ Z.max (- e) 0)%Z).
  assert (Hb : (0 < b)%Z) by (apply Z.pow_pos_nonneg; lia).
  intros [H1 T1] [H2 T2].
  assert (Odd : forall x, Z.even x = true -> Z.even (x + 1) = true -> False).
  { intros x Hx Hx'. rewrite Z.even_add, Hx in Hx'. discriminate Hx'. }
  destruct (Z.lt_trichotomy n n') as [L | [E | L]]; [|exact E|]; exfalso.
  - assert (B : ((n' - n) * b <= b)%Z) by lia.
    assert (E : n' = (n + 1)%Z) by nia. subst n'.
    apply (Odd n); [apply T1 | apply T2]; lia.
  - assert (B : ((n - n') * b <= b)%Z) by lia.
    assert (E : n = (n' + 1)%Z) by nia. subst n.
    apply (Odd n'); [apply T2 | apply T1]; lia.
Qed.

Lemma round_half_even_scaled_nonneg m e :
  (0 <= Binary64.round_half_even_scaled m e)%Z.
Proof.
  unfold Binary64.round_half_even_scaled.
  destruct (Z.leb_spec 0 e) as [He | He];
    [apply Z.mul_nonneg_nonneg; [lia | apply Z.pow_nonneg; lia]|].
  assert (HD : (0 < 2 ^ (- e))%Z) by (apply Z.pow_pos_nonneg; lia).
  assert (Hq : (0 <= Z.pos m * 10000 / 2 ^ (- e))%Z)
    by (apply Z.div_pos; lia).
  destruct (2 * ((Z.pos m * 10000) mod 2 ^ (- e)) <? 2 ^ (- e))%Z; [lia|].
  destruct (2 ^ (- e) <? 2 * ((Z.pos m * 10000) mod 2 ^ (- e)))%Z; [lia|].
  destruct (Z.even (Z.pos m * 10000 / 2 ^ (- e))); lia.
Qed.

(** A text of ten-thousandths has exactly four digits after the point. *)
Lemma fixed_4_fraction_digits s n :
  (0 <= n)%Z -> fraction_digits (Binary64.fixed_4 s n) = Some 4%nat.
Proof.
  intros Hn. unfold Binary64.fixed_4.
  destruct (str_nonneg_digits (n / 10000)) as [Hd Hne];
    [apply Z.div_pos; lia|].
  destruct (zfill4_digits (n mod 10000)) as [Hf Hl].
  change ("." ++ zfill4 (n mod 10000))%string
    with (String "." (zfill4 (n mod 10000))).
  rewrite fraction_digits_signed; auto.
  destruct s; auto.
Qed.

Lemma estimate_kmps_nonempty64 v vs :
  Binary64.estimate_kmps (v :: vs)
  = Ok (Binary64.sum (v :: vs)
        / Binary64.float_of_nat (List.length (v :: vs)) / 1000)%float.
Proof. reflexivity. Qed.

Lemma estimate_kmps_empty64 :
  Binary64.estimate_kmps [] = Ok (7667.7 / 1000)%float.
Proof. reflexivity. Qed.

(** [output_string] never faults. *)
Lemma output_string_total64 (l : list float) :
  exists x,
    Binary64.estimate_kmps l = Ok x
    /\ Binary64.output_string l = Ok (Binary64.format_4f x).
Proof.
  unfold Binary64.output_string. destruct l as [|v vs].
  - rewrite estimate_kmps_empty64. eauto.
  - rewrite estimate_kmps_nonempty64. eauto.
Qed.

End Formatting64.

(* ----------------------------------------------------------------- *)
(** ** One pass through the loop *)

Ltac run_capture :=
  unfold loop_body, os_unlink, deque_popleft, deque_append, mbind, gets,
    modify, lift, ret, raise.

Ltac run_monad :=
  unfold loop_body, compare_photos, os_unlink, deque_popleft, deque_append,
    v_list_append, h_list_append, try_except, except_pass, mbind, gets,
    modify, lift, ret, raise.

Ltac step := cbn -[Nat.leb Z.add Z.eqb compare_photos].

Section LoopBody.

Local Open Scope Z_scope.

Variable base : string.

(** After a successful capture the pass continues with the comparison of
    the two newest photos, or ends at once for the very first photo. *)
Lemma loop_body_after_capture w st :
  capture_succeeds w st ->
  loop_body base w st
  = if negb (k st + 1 =? 0) then
      match io_features w with
      | Ok kps =>
          match measure_and_solve w (fst kps) (snd kps)
                  (total_seconds (io_now w - now_time st)) with
          | Ok vh =>
              (Ok tt,
               set_h_list (h_list st ++ [snd vh])
                 (set_v_list (v_list st ++ [fst vh])
                    (after_capture base w st)))
          | Raise cv2_error | Raise ZeroDivisionError =>
              (Ok tt, after_capture base w st)
          | Raise e => (Raise e, after_capture base w st)
          end
      | Raise e => (Raise e, after_capture base w st)
      end
    else (Ok tt, after_capture base w st).
Proof.
  intros [Hu Hc]. run_monad. unfold after_capture.
  cbn -[Nat.leb Z.add Z.eqb].
  destruct (Nat.leb 42 (List.length (images_deque st))) eqn:Efull.
  - rewrite (Hu eq_refl), Hc.
    destruct (images_deque st) as [|p dq] eqn:Edq; [discriminate Efull|].
    cbn -[Nat.leb Z.add Z.eqb]. rewrite ?Edq. cbn -[Nat.leb Z.add Z.eqb].
    destruct (negb (k st + 1 =? 0)); [|reflexivity].
    destruct (io_features w) as [kps | e]; [|reflexivity].
    destruct (measure_and_solve w (fst kps) (snd kps)
                (total_seconds (io_now w - now_time st))) as [vh | e];
      [reflexivity | destruct e; reflexivity].
  - rewrite Hc. cbn -[Nat.leb Z.add Z.eqb]. rewrite app_nil_r.
    destruct (negb (k st + 1 =? 0)); [|reflexivity].
    destruct (io_features w) as [kps | e]; [|reflexivity].
    destruct (measure_and_solve w (fst kps) (snd kps)
                (total_seconds (io_now w - now_time st))) as [vh | e];
      [reflexivity | destruct e; reflexivity].
Qed.

(** A pass that ends without an exception had a successful capture. *)
Lemma loop_body_ok_capture w st st' :
  loop_body base w st = (Ok tt, st') -> capture_succeeds w st.
Proof.
  run_monad. unfold capture_succeeds. cbn -[Nat.leb Z.add Z.eqb].
  destruct (Nat.leb 42 (List.length (images_deque st))) eqn:Efull.
  - destruct (images_deque st) as [|p dq] eqn:Edq; [discriminate Efull|].
    cbn -[Nat.leb Z.add Z.eqb]. rewrite ?Edq. cbn -[Nat.leb Z.add Z.eqb].
    destruct (io_unlink w) as [[] | e]; [|discriminate].
    cbn -[Nat.leb Z.add Z.eqb].
    destruct (io_capture w) as [[] | e]; [|discriminate].
    auto.
  - cbn -[Nat.leb Z.add Z.eqb].
    destruct (io_capture w) as [[] | e]; [|discriminate].
    intros _. split; [discriminate | reflexivity].
Qed.

(** What a pass without exception does to the counter, the clock, the
    frame buffer and the environment. *)
Lemma loop_body_ok_frame w st st' :
  loop_body base w st = (Ok tt, st') ->
  k st' = k (after_capture base w st)
  /\ now_time st' = now_time (after_capture base w st)
  /\ images_deque st' = images_deque (after_capture base w st)
  /\ unlinked st' = unlinked (after_capture base w st)
  /\ cam_closed st' = cam_closed st
  /\ result_file st' = result_file st
  /\ write_count st' = write_count st.
Proof.
  intros H. pose proof (loop_body_ok_capture w st st' H) as Hc.
  rewrite (loop_body_after_capture w st Hc) in H.
  destruct (negb (k st + 1 =? 0)).
  - destruct (io_features w) as [kps | e]; [|discriminate].
    destruct (measure_and_solve w (fst kps) (snd kps)
                (total_seconds (io_now w - now_time st))) as [vh | e].
    + injection H as <-. repeat split; reflexivity.
    + destruct e; try discriminate; injection H as <-;
        repeat split; reflexivity.
  - injection H as <-. repeat split; reflexivity.
Qed.

(** The comparison touches nothing but the two lists of results. *)
Lemma compare_photos_frame w dt st :
  let st' := snd (compare_photos w dt st) in
  k st' = k st /\ now_time st' = now_time st
  /\ images_deque st' = images_deque st /\ unlinked st' = unlinked st
  /\ cam_closed st' = cam_closed st /\ result_file st' = result_file st
  /\ write_count st' = write_count st.
Proof.
  unfold compare_photos, v_list_append, h_list_append, try_except,
    except_pass, mbind, gets, modify, lift, ret, raise.
  destruct (io_features w) as [kps | e]; [|cbn; tauto].
  destruct (measure_and_solve w (fst kps) (snd kps) dt) as [vh | e];
    [cbn; tauto|].
  destruct e; cbn; tauto.
Qed.

(** The state in which a pass is left by a failing [os.unlink] or
    [cam.capture], and in which the comparison starts otherwise. *)
Lemma loop_body_capture_cases w st :
  exists st1,
    (loop_body base w st
     = (if negb (k st + 1 =? 0)
        then compare_photos w (total_seconds (io_now w - now_time st))
        else ret tt) st1
     \/ exists e, loop_body base w st = (Raise e, st1))
    /\ (List.length (images_deque st) <= 42 ->
        List.length (images_deque st1) <= 42)%nat
    /\ cam_closed st1 = cam_closed st
    /\ result_file st1 = result_file st
    /\ write_count st1 = write_count st.
Proof.
  run_capture. step.
  destruct (Nat.leb_spec 42 (List.length (images_deque st)))
    as [Hfull | Hfree].
  - destruct (images_deque st) as [|p dq] eqn:Edq; [cbn in Hfull; lia|].
    step. rewrite ?Edq. step.
    destruct (io_unlink w) as [[] | e]; step.
    + destruct (io_capture w) as [[] | e]; step.
      * eexists. split; [left; reflexivity|]. step.
        rewrite length_app. cbn [List.length]. repeat split; try lia.
      * eexists. split; [right; eexists; reflexivity|]. step.
        repeat split; try lia.
    + eexists. split; [right; eexists; reflexivity|]. step.
      repeat split; try lia.
  - step. destruct (io_capture w) as [[] | e]; step.
    + eexists. split; [left; reflexivity|]. step.
      rewrite length_app. cbn [List.length]. repeat split; try lia.
    + eexists. split; [right; eexists; reflexivity|]. step.
      repeat split; try lia.
Qed.

(** No pass, whatever its outcome, closes the camera, writes the result or
    leaves more than 42 paths in the buffer. *)
Lemma loop_body_keeps_camera w st :
  cam_closed (snd (loop_body base w st)) = cam_closed st
  /\ write_count (snd (loop_body base w st)) = write_count st
  /\ result_file (snd (loop_body base w st)) = result_file st
  /\ (List.length (images_deque st) <= 42 ->
      List.length (images_deque (snd (loop_body base w st))) <= 42)%nat.
Proof.
  destruct (loop_body_capture_cases w st)
    as (st1 & [E | [e E]] & Hd & Hc & Hr & Hw); rewrite E.
  - destruct (negb (k st + 1 =? 0)).
    + destruct (compare_photos_frame w
                  (total_seconds (io_now w - now_time st)) st1)
        as (_ & _ & Ed & _ & Ec & Er & Ew).
      rewrite Ed, Ec, Er, Ew. tauto.
    + cbn. tauto.
  - cbn. tauto.
Qed.

End LoopBody.

(* ----------------------------------------------------------------- *)
(** ** The frame buffer *)

Section FrameBuffer.

Variable base : string.

Lemma append_inj_l (s a b : string) :
  (s ++ a)%string = (s ++ b)%string -> a = b.
Proof.
  induction s as [|c s IH]; cbn; intros H; [exact H|].
  injection H as H. now apply IH.
Qed.

Lemma append_length (a b : string) :
  String.length (a ++ b) = (String.length a + String.length b)%nat.
Proof. induction a as [|c a IH]; cbn; [reflexivity | now rewrite IH]. Qed.

Lemma append_inj_r (s : string) : forall a b : string,
  (a ++ s)%string = (b ++ s)%string -> a = b.
Proof.
  induction a as [|c a IH]; intros b H.
  - destruct b as [|c' b]; [reflexivity|].
    apply (f_equal String.length) in H. cbn in H.
    rewrite append_length in H. lia.
  - destruct b as [|c' b].
    + apply (f_equal String.length) in H. cbn in H.
      rewrite append_length in H. lia.
    + cbn in H. injection H as -> H. f_equal. now apply IH.
Qed.

Lemma to_int_printable (n : Z) :
  Z.to_int n <> Decimal.Pos Decimal.Nil
  /\ Z.to_int n <> Decimal.Neg Decimal.Nil.
Proof.
  destruct n as [| p | p]; cbn; split; try discriminate;
    intros H; injection H as H; exact (DecimalPos.Unsigned.to_uint_nonnil p H).
Qed.

Lemma str_inj (a b : Z) : str a = str b -> a = b.
Proof.
  unfold str. intros H.
  destruct (to_int_printable a) as [Ha1 Ha2].
  destruct (to_int_printable b) as [Hb1 Hb2].
  pose proof (NilZero.isi (Z.to_int a) Ha1 Ha2) as Ea.
  pose proof (NilZero.isi (Z.to_int b) Hb1 Hb2) as Eb.
  rewrite H, Eb in Ea. injection Ea as Ea.
  symmetry. now apply to_int_inj.
Qed.

Lemma photo_path_inj (a b : Z) :
  photo_path base a = photo_path base b -> a = b.
Proof.
  unfold photo_path. intros H.
  apply append_inj_l, append_inj_l, append_inj_r in H.
  now apply str_inj.
Qed.

Lemma photos_snoc a n :
  photos base a (S n)
  = photos base a n ++ [photo_path base (Z.of_nat (a + n))].
Proof.
  unfold photos. now rewrite seq_S, map_app.
Qed.

Lemma photos_length a n : List.length (photos base a n) = n.
Proof. unfold photos. now rewrite length_map, length_seq. Qed.

Lemma in_photos a n p :
  In p (photos base a n)
  <-> exists i, (a <= i < a + n)%nat /\ p = photo_path base (Z.of_nat i).
Proof.
  unfold photos. rewrite in_map_iff. split.
  - intros (i & <- & Hi). apply in_seq in Hi. eauto.
  - intros (i & Hi & ->). exists i. split; [reflexivity|].
    now apply in_seq.
Qed.

Lemma buffer_after_initial h_seed io :
  buffer_after base 0 (initial_state h_seed io).
Proof. repeat split. Qed.

(** A pass through the loop retains one more photo. *)
Lemma buffer_after_step w st st' N :
  loop_body base w st = (Ok tt, st') ->
  buffer_after base N st -> buffer_after base (S N) st'.
Proof.
  intros H (Hk & Hd & Hu).
  destruct (loop_body_ok_frame base w st st' H)
    as (Ek & _ & Ed & Eu & _).
  unfold buffer_after. rewrite Ek, Ed, Eu. unfold after_capture.
  cbn [k images_deque unlinked].
  rewrite Hd, Hu, Hk, photos_length.
  replace (Z.of_nat N - 1 + 1)%Z with (Z.of_nat N) by lia.
  split; [lia|].
  destruct (Nat.leb_spec 42 (Nat.min N 42)) as [Hfull | Hfree].
  - assert (HN : (42 <= N)%nat) by lia.
    replace (Nat.min N 42) with 42%nat by lia.
    replace (Nat.min (S N) 42) with 42%nat by lia.
    replace (S N - 42)%nat with (S (N - 42)) by lia.
    split.
    + rewrite (photos_snoc (S (N - 42)) 41).
      replace (S (N - 42) + 41)%nat with N by lia.
      reflexivity.
    + rewrite (photos_snoc 0 (N - 42)). reflexivity.
  - assert (HN : (N < 42)%nat) by lia.
    replace (Nat.min N 42) with N by lia.
    replace (Nat.min (S N) 42) with (S N) by lia.
    replace (S N - 42)%nat with 0%nat by lia.
    replace (N - 42)%nat with 0%nat by lia.
    split.
    + now rewrite (photos_snoc 0 N).
    + now rewrite app_nil_r.
Qed.

(** The loop retains one photo per pass it completes. *)
Lemma main_loop_buffer start ws : forall st N b st',
  main_loop base start ws st = (Ok b, st') ->
  buffer_after base N st ->
  exists N', (N <= N')%nat /\ buffer_after base N' st'.
Proof.
  induction ws as [|w ws IH]; intros st N b st' H Hinv.
  - cbn [main_loop] in H.
    destruct (now_time st <? start + nine_minutes)%Z;
      inversion H; subst; eauto.
  - cbn [main_loop] in H.
    destruct (now_time st <? start + nine_minutes)%Z;
      [|inversion H; subst; eauto].
    unfold mbind in H.
    destruct (loop_body base w st) as [[[] | e] st1] eqn:E; [|discriminate].
    destruct (IH st1 (S N) b st' H (buffer_after_step w st st1 N E Hinv))
      as (N' & HN' & Hinv').
    exists N'. split; [lia | exact Hinv'].
Qed.

End FrameBuffer.

(** What [main] leaves in the buffer is what the loop left there. *)
Lemma main_from_buffer h_seed io b :
  fst (main_from h_seed io) = Ok b ->
  exists N, buffer_after (base_folder io) N (snd (main_from h_seed io)).
Proof.
  intros H. unfold main_from, mbind in *.
  destruct (main_loop (base_folder io) (io_start io) (io_iterations io)
              (initial_state h_seed io)) as [[exited | e] st1] eqn:E;
    [|discriminate].
  destruct (main_loop_buffer (base_folder io) (io_start io)
              (io_iterations io) _ 0 _ _ E
              (buffer_after_initial (base_folder io) h_seed io))
    as (N & _ & Hinv).
  exists N. destruct exited.
  - unfold cam_close, finalize, mbind, gets, modify, lift, ret in *.
    cbn [v_list set_cam_closed] in *.
    destruct (output_string_total (v_list st1)) as (x & _ & Hx).
    rewrite Hx. cbn [snd]. exact Hinv.
  - exact Hinv.
Qed.

(* ----------------------------------------------------------------- *)
(** ** The whole run *)

Section Run.

Variable base : string.
Variable start : Z.

(** The loop never closes the camera, never writes the result, and keeps
    the buffer within its bound, whatever its outcome. *)
Lemma main_loop_keeps_camera ws : forall st,
  cam_closed (snd (main_loop base start ws st)) = cam_closed st
  /\ write_count (snd (main_loop base start ws st)) = write_count st
  /\ result_file (snd (main_loop base start ws st)) = result_file st
  /\ (List.length (images_deque st) <= 42 ->
      List.length (images_deque (snd (main_loop base start ws st))) <= 42)%nat.
Proof.
  induction ws as [|w ws IH]; intros st; cbn [main_loop].
  - destruct (now_time st <? start + nine_minutes)%Z; cbn; tauto.
  - destruct (now_time st <? start + nine_minutes)%Z; [|cbn; tauto].
    unfold mbind.
    destruct (loop_body_keeps_camera base w st) as (Hc & Hw & Hr & Hd).
    destruct (loop_body base w st) as [[[] | e] st1]; cbn [snd] in *.
    + destruct (IH st1) as (Hc' & Hw' & Hr' & Hd').
      rewrite Hc', Hw', Hr', <- Hc, <- Hw, <- Hr. tauto.
    + tauto.
Qed.

End Run.

(** The state [main] ends in, according to its outcome. *)
Lemma main_from_outcome h_seed io :
  let st := snd (main_loop (base_folder io) (io_start io) (io_iterations io)
                   (initial_state h_seed io)) in
  match fst (main_from h_seed io) with
  | Ok true =>
      exists text,
        output_string (v_list st) = Ok text
        /\ snd (main_from h_seed io)
           = set_result_file text (set_cam_closed (S (cam_closed st)) st)
  | _ => snd (main_from h_seed io) = st
  end.
Proof.
  unfold main_from, mbind. cbn zeta.
  destruct (main_loop (base_folder io) (io_start io) (io_iterations io)
              (initial_state h_seed io)) as [[[|] | e] st1];
    cbn [fst snd]; try reflexivity.
  unfold cam_close, finalize, mbind, gets, modify, lift, ret.
  cbn [v_list set_cam_closed].
  destruct (output_string_total (v_list st1)) as (x & _ & Hx).
  rewrite Hx. cbn [fst snd]. eauto.
Qed.

(** C5: the buffer never holds more than 42 paths, whatever the outcome of
    the run.  When the run has retained [N] photos without a fatal fault,
    the buffer holds the newest [min N 42] of them in order; if [N > 42],
    exactly the [N - 42] oldest photos have been deleted, oldest first; and
    the two photos compared in the latest pass are in the buffer and have
    not been deleted. *)
Theorem frame_buffer_keeps_newest_42 (io : run_io) :
  (List.length (images_deque (snd (main io))) <= 42)%nat
  /\ (forall b, fst (main io) = Ok b ->
      let st := snd (main io) in
      let N := Z.to_nat (k st + 1) in
      images_deque st = photos (base_folder io) (N - 42) (Nat.min N 42)
      /\ (42 < N ->
          List.length (images_deque st) = 42%nat
          /\ unlinked st = photos (base_folder io) 0 (N - 42)
          /\ List.length (unlinked st) = (N - 42)%nat)
      /\ (2 <= N ->
          forall i, (i = N - 2 \/ i = N - 1)%nat ->
            In (photo_path (base_folder io) (Z.of_nat i)) (images_deque st)
            /\ ~ In (photo_path (base_folder io) (Z.of_nat i))
                 (unlinked st)))%nat.
Proof.
  split.
  - unfold main. pose proof (main_from_outcome 418000%R io) as H.
    cbn zeta in H.
    destruct (main_loop_keeps_camera (base_folder io) (io_start io)
                (io_iterations io) (initial_state 418000%R io))
      as (_ & _ & _ & Hd).
    specialize (Hd (Nat.le_0_l 42)).
    destruct (fst (main_from 418000%R io)) as [[|] | e].
    + destruct H as (text & _ & ->). exact Hd.
    + rewrite H. exact Hd.
    + rewrite H. exact Hd.
  - intros b Hb. cbn zeta. unfold main in *.
    destruct (main_from_buffer 418000%R io b Hb) as (N & Hk & Hd & Hu).
    rewrite Hk. replace (Z.to_nat (Z.of_nat N - 1 + 1)) with N by lia.
    split; [exact Hd|]. split.
    + intros HN. rewrite Hd, Hu, !photos_length.
      repeat split; lia.
    + intros HN i Hi. rewrite Hd, Hu, !in_photos. split.
      * exists i. split; [lia | reflexivity].
      * intros (j & Hj & E). apply photo_path_inj in E. lia.
Qed.

(** C7, as the code has it: the camera is closed exactly once when the loop
    ends because the nine minutes have passed, and the result is then
    written once; when the run is still in the loop, or has left it through
    an uncaught exception, the camera has not been closed and nothing has
    been written. *)
Theorem camera_closed_on_normal_exit_only (io : run_io) :
  cam_closed (snd (main io))
  = match fst (main io) with Ok true => 1%nat | _ => 0%nat end
  /\ write_count (snd (main io))
     = match fst (main io) with Ok true => 1%nat | _ => 0%nat end.
Proof.
  unfold main. pose proof (main_from_outcome 418000%R io) as H.
  cbn zeta in H.
  destruct (main_loop_keeps_camera (base_folder io) (io_start io)
              (io_iterations io) (initial_state 418000%R io))
    as (Hc & Hw & _ & _).
  cbn [initial_state cam_closed write_count] in Hc, Hw.
  destruct (fst (main_from 418000%R io)) as [[|] | e].
  - destruct H as (text & _ & ->).
    cbn [set_result_file set_cam_closed cam_closed write_count].
    now rewrite Hc, Hw.
  - rewrite H. now rewrite Hc, Hw.
  - rewrite H. now rewrite Hc, Hw.
Qed.

(** What a run has written, according to its outcome. *)
Lemma main_writes_when_the_loop_ends io :
  match fst (main io) with
  | Ok true =>
      write_count (snd (main io)) = 1%nat
      /\ exists text, result_file (snd (main io)) = Some text
  | _ =>
      write_count (snd (main io)) = 0%nat
      /\ result_file (snd (main io)) = io_prior_result io
  end.
Proof.
  unfold main. pose proof (main_from_outcome 418000%R io) as H.
  cbn zeta in H.
  destruct (main_loop_keeps_camera (base_folder io) (io_start io)
              (io_iterations io) (initial_state 418000%R io))
    as (_ & Hw & Hr & _).
  cbn [initial_state result_file write_count] in Hw, Hr.
  destruct (fst (main_from 418000%R io)) as [[|] | e].
  - destruct H as (text & _ & ->).
    cbn [set_result_file set_cam_closed result_file write_count].
    rewrite Hw. eauto.
  - rewrite H. now rewrite Hw, Hr.
  - rewrite H. now rewrite Hw, Hr.
Qed.

(** C4, as the code has it.  For a non-empty sample sequence the text is
    that of the double obtained by adding the samples from left to right,
    dividing by their number and then by 1000; for the empty sequence it is
    ["7.6677"], the fallback 7667.7 m/s; computing it never faults.  The
    text of a finite double is its exact value rounded to the nearest
    ten-thousandth, to the even one on a tie, printed with exactly four
    digits after the point; a double that is not a number is printed as
    ["nan"] and an infinite one as ["inf"].  When [result.txt] can be opened and written the text becomes
    its whole content in one write; when it cannot be opened the exception
    leaves [main] and the file is untouched.  A run writes once when its
    loop ends at the nine-minute bound, and not at all otherwise. *)
Theorem finalize_writes_rounded_mean_or_fallback :
  (forall v vs,
      Binary64.output_string (v :: vs)
      = Ok (Binary64.format_4f
              (Binary64.sum (v :: vs)
               / Binary64.float_of_nat (List.length (v :: vs))
               / 1000)%float))
  /\ Binary64.output_string [] = Ok "7.6677"%string
  /\ (forall x s m e,
         Prim2SF x = S754_finite s m e ->
         exists n,
           Binary64.nearest_even m e n
           /\ (0 <= n)%Z
           /\ Binary64.format_4f x
              = ((if s then "-" else "")
                   ++ str (n / 10000) ++ "." ++ zfill4 (n mod 10000))%string
           /\ fraction_digits (Binary64.format_4f x) = Some 4%nat)
  /\ (forall m e n n',
         Binary64.nearest_even m e n -> Binary64.nearest_even m e n' ->
         n = n')
  /\ (forall x s,
         Prim2SF x = S754_zero s ->
         Binary64.format_4f x
         = ((if s then "-" else "") ++ "0.0000")%string)
  /\ (forall x,
         Prim2SF x = S754_nan -> Binary64.format_4f x = "nan"%string)
  /\ (forall x s,
         Prim2SF x = S754_infinity s ->
         Binary64.format_4f x = ((if s then "-" else "") ++ "inf")%string)
  /\ Binary64.output_string [7000; 8000]%float = Ok "7.5000"%string
  /\ Binary64.output_string [0.25]%float = Ok "0.0003"%string
  /\ Binary64.output_string
       [6711.846403860881; 7851.477015075763; 6768.326581063359]%float
     = Ok "7.1106"%string
  /\ Binary64.output_string
       [6711.846403860881; 6768.326581063359; 7851.477015075763]%float
     = Ok "7.1105"%string
  /\ (forall v_list file, exists text,
         Binary64.output_string v_list = Ok text
         /\ Binary64.finalize v_list
              (Binary64.mkFileIO (Ok tt) (Ok tt)) file
            = (Ok tt,
               Binary64.mkFile (Some text) (S (Binary64.written file))))
  /\ (forall v_list w file e,
         Binary64.io_open w = Raise e ->
         Binary64.finalize v_list w file = (Raise e, file))
  /\ (forall io,
         match fst (main io) with
         | Ok true =>
             write_count (snd (main io)) = 1%nat
             /\ exists text, result_file (snd (main io)) = Some text
         | _ =>
             write_count (snd (main io)) = 0%nat
             /\ result_file (snd (main io)) = io_prior_result io
         end).
Proof.
  split; [reflexivity|]. split; [vm_compute; reflexivity|].
  split.
  { intros x s m e Hx.
    exists (Binary64.round_half_even_scaled m e).
    split; [apply round_half_even_scaled_nearest|].
    split; [apply round_half_even_scaled_nonneg|].
    unfold Binary64.format_4f. rewrite Hx.
    split; [reflexivity|].
    apply fixed_4_fraction_digits, round_half_even_scaled_nonneg. }
  split; [apply nearest_even_unique|].
  split.
  { intros x s Hx. unfold Binary64.format_4f. rewrite Hx.
    destruct s; reflexivity. }
  split.
  { intros x Hx. unfold Binary64.format_4f. now rewrite Hx. }
  split.
  { intros x s Hx. unfold Binary64.format_4f. now rewrite Hx. }
  split; [vm_compute; reflexivity|].
  split; [vm_compute; reflexivity|].
  split; [vm_compute; reflexivity|].
  split; [vm_compute; reflexivity|].
  split.
  { intros v_list file.
    destruct (output_string_total64 v_list) as (x & _ & Hx).
    exists (Binary64.format_4f x). split; [exact Hx|].
    unfold Binary64.finalize. now rewrite Hx. }
  split.
  { intros v_list w file e Hw. unfold Binary64.finalize.
    destruct (output_string_total64 v_list) as (x & _ & Hx).
    now rewrite Hx, Hw. }
  apply main_writes_when_the_loop_ends.
Qed.

(* ----------------------------------------------------------------- *)
(** ** A pass that compares two photos *)

Section Comparison.

Local Open Scope Z_scope.

Variable base : string.

Lemma measure_and_solve_displacement w kp1 kp2 dt :
  measure_and_solve w kp1 kp2 dt
  = bind (measured_displacement w kp1 kp2) (fun d => solve d dt).
Proof.
  unfold measure_and_solve, measured_displacement.
  destruct (calculate_matches (io_match w)) as [ms | e]; [|reflexivity].
  cbn [bind].
  destruct (find_matching_coordinates kp1 kp2 ms) as [cs | e];
    reflexivity.
Qed.

(** With a zero displacement every round skips the altitude update. *)
Lemma solver_rounds_zero_displacement dt n : forall v,
  solver_rounds n 0 dt 400000 v
  = Ok (match n with O => v | S _ => Some seed_velocity end, 400000%R).
Proof.
  induction n as [|n IH]; intros v; cbn [solver_rounds]; [reflexivity|].
  rewrite calculate_v_from_h_ok by lra. cbn [bind].
  destruct (Req_dec_T 0 0) as [_ | N]; [|congruence].
  cbn [bind]. rewrite IH. now destruct n.
Qed.

Lemma solve_zero_displacement dt : solve 0 dt = Ok (seed_velocity, 400000%R).
Proof.
  unfold solve, n_iteration.
  now rewrite solver_rounds_zero_displacement.
Qed.

(** A measured pair whose solver succeeds appends one sample. *)
Lemma loop_body_sample w st kps v h :
  capture_succeeds w st -> k st + 1 <> 0 -> io_features w = Ok kps ->
  measure_and_solve w (fst kps) (snd kps)
    (total_seconds (io_now w - now_time st)) = Ok (v, h) ->
  loop_body base w st
  = (Ok tt, set_h_list (h_list st ++ [h])
              (set_v_list (v_list st ++ [v]) (after_capture base w st))).
Proof.
  intros Hc Hk Hf Hm. rewrite (loop_body_after_capture base w st Hc).
  apply Z.eqb_neq in Hk. rewrite Hk, Hf. cbn [negb]. now rewrite Hm.
Qed.

(** A [cv2.error] or [ZeroDivisionError] of the guarded block is passed
    over: the pass ends normally and appends nothing. *)
Lemma loop_body_caught w st kps e :
  capture_succeeds w st -> k st + 1 <> 0 -> io_features w = Ok kps ->
  measure_and_solve w (fst kps) (snd kps)
    (total_seconds (io_now w - now_time st)) = Raise e ->
  e = cv2_error \/ e = ZeroDivisionError ->
  loop_body base w st = (Ok tt, after_capture base w st).
Proof.
  intros Hc Hk Hf Hm He. rewrite (loop_body_after_capture base w st Hc).
  apply Z.eqb_neq in Hk. rewrite Hk, Hf. cbn [negb]. rewrite Hm.
  now destruct He as [-> | ->].
Qed.


(** When the clock has advanced between the two photos, a measured pair
    always yields a sample: the velocity of the eighth round. *)
Lemma loop_body_forward_clock w st kps d :
  capture_succeeds w st -> k st + 1 <> 0 -> io_features w = Ok kps ->
  measured_displacement w (fst kps) (snd kps) = Ok d ->
  now_time st < io_now w ->
  let dt := total_seconds (io_now w - now_time st) in
  loop_body base w st
  = (Ok tt, set_h_list (h_list st ++ [spec_altitude d dt 8])
              (set_v_list (v_list st ++ [spec_velocity d dt 8])
                 (after_capture base w st))).
Proof.
  intros Hc Hk Hf Hd Ht dt.
  apply (loop_body_sample w st kps); auto.
  rewrite measure_and_solve_displacement, Hd. cbn [bind].
  fold dt. apply solver_rounds_solve.
  - now apply (measured_displacement_nonneg w (fst kps) (snd kps)).
  - unfold dt, total_seconds. apply Rdiv_lt_0_compat; [|lra].
    apply IZR_lt. lia.
Qed.

(** While the nine minutes have not passed, a pass that ends normally is
    followed by the rest of the loop. *)
Lemma main_loop_proceeds start w ws st st' :
  now_time st < start + nine_minutes ->
  loop_body base w st = (Ok tt, st') ->
  main_loop base start (w :: ws) st = main_loop base start ws st'.
Proof.
  intros Ht Hb. cbn [main_loop]. apply Z.ltb_lt in Ht. rewrite Ht.
  unfold mbind. now rewrite Hb.
Qed.

End Comparison.

(** C9: when the mean displacement of a frame pair is 0, the pass appends
    the orbital speed at the seed altitude, [sqrt (G M / (R + 400000))],
    whatever the photos and the elapsed time are, and that value enters the
    arithmetic mean from which the final estimate is taken. *)
Theorem zero_displacement_appends_seed_velocity base w st kps :
  capture_succeeds w st -> (k st + 1 <> 0)%Z -> io_features w = Ok kps ->
  measured_displacement w (fst kps) (snd kps) = Ok 0%R ->
  fst (loop_body base w st) = Ok tt
  /\ v_list (snd (loop_body base w st))
     = v_list st
         ++ [sqrt (G_default * M_default / (R_default + 400000))]
  /\ estimate_kmps (v_list (snd (loop_body base w st)))
     = Ok (arithmetic_mean
             (v_list st
                ++ [sqrt (G_default * M_default / (R_default + 400000))])
           / 1000)%R.
Proof.
  intros Hc Hk Hf Hd.
  assert (Hm : measure_and_solve w (fst kps) (snd kps)
                 (total_seconds (io_now w - now_time st))
               = Ok (seed_velocity, 400000%R)).
  { rewrite measure_and_solve_displacement, Hd. cbn [bind].
    apply solve_zero_displacement. }
  rewrite (loop_body_sample base w st kps _ _ Hc Hk Hf Hm).
  cbn [fst snd set_h_list set_v_list v_list after_capture].
  fold seed_velocity. split; [reflexivity|]. split; [reflexivity|].
  destruct (v_list st ++ [seed_velocity]) as [|v vs] eqn:E.
  - now apply app_eq_nil in E as [_ E].
  - apply estimate_kmps_nonempty.
Qed.

(** C1, as the code has it: a frame pair whose mean displacement is
    exactly 0 never makes the pass fault.  The guard skips the altitude
    update in each of the eight rounds, so the solver ends with the
    altitude still at 400000, and the pass appends one velocity sample and
    one altitude as for any other measured pair. *)
Theorem zero_displacement_is_not_a_fault base w st kps :
  capture_succeeds w st -> (k st + 1 <> 0)%Z -> io_features w = Ok kps ->
  measured_displacement w (fst kps) (snd kps) = Ok 0%R ->
  fst (loop_body base w st) = Ok tt
  /\ List.length (v_list (snd (loop_body base w st)))
     = S (List.length (v_list st))
  /\ h_list (snd (loop_body base w st)) = h_list st ++ [400000%R]
  /\ (forall dt, exists v, solve 0 dt = Ok (v, 400000%R)).
Proof.
  intros Hc Hk Hf Hd.
  assert (Hm : measure_and_solve w (fst kps) (snd kps)
                 (total_seconds (io_now w - now_time st))
               = Ok (seed_velocity, 400000%R)).
  { rewrite measure_and_solve_displacement, Hd. cbn [bind].
    apply solve_zero_displacement. }
  rewrite (loop_body_sample base w st kps _ _ Hc Hk Hf Hm).
  cbn [fst snd set_h_list set_v_list v_list h_list after_capture].
  split; [reflexivity|]. split.
  - rewrite length_app. cbn [List.length]. lia.
  - split; [reflexivity|]. intros dt. exists seed_velocity.
    apply solve_zero_displacement.
Qed.

(* ----------------------------------------------------------------- *)
(** ** The altitude history is write-only *)

Section AltitudeHistory.

Local Open Scope Z_scope.

Variable base : string.

Lemma loop_body_same_but_h_list w st1 st2 :
  same_but_h_list st1 st2 ->
  fst (loop_body base w st1) = fst (loop_body base w st2)
  /\ same_but_h_list (snd (loop_body base w st1))
       (snd (loop_body base w st2)).
Proof.
  destruct st1 as [k1 t1 dq1 hs1 vs1 un1 cc1 rf1 wc1].
  destruct st2 as [k2 t2 dq2 hs2 vs2 un2 cc2 rf2 wc2].
  unfold same_but_h_list. cbn [k now_time images_deque v_list unlinked
                                 cam_closed result_file write_count].
  intros (<- & <- & <- & <- & <- & <- & <- & <-).
  run_monad. cbn -[Nat.leb Z.add Z.eqb Z.sub].
  destruct (Nat.leb 42 (List.length dq1)).
  - destruct dq1 as [|p dq]; cbn -[Z.add Z.eqb Z.sub]; [tauto|].
    destruct (io_unlink w) as [[] | e]; cbn -[Z.add Z.eqb Z.sub]; [|tauto].
    destruct (io_capture w) as [[] | e]; cbn -[Z.add Z.eqb Z.sub]; [|tauto].
    destruct (negb (k1 + 1 =? 0)); cbn -[Z.add Z.eqb Z.sub]; [|tauto].
    destruct (io_features w) as [kps | e]; cbn -[Z.add Z.eqb Z.sub];
      [|tauto].
    destruct (measure_and_solve w (fst kps) (snd kps)
                (total_seconds (io_now w - t1))) as [vh | e];
      cbn -[Z.add Z.eqb Z.sub]; [tauto|].
    destruct e; cbn; tauto.
  - cbn -[Z.add Z.eqb Z.sub].
    destruct (io_capture w) as [[] | e]; cbn -[Z.add Z.eqb Z.sub]; [|tauto].
    destruct (negb (k1 + 1 =? 0)); cbn -[Z.add Z.eqb Z.sub]; [|tauto].
    destruct (io_features w) as [kps | e]; cbn -[Z.add Z.eqb Z.sub];
      [|tauto].
    destruct (measure_and_solve w (fst kps) (snd kps)
                (total_seconds (io_now w - t1))) as [vh | e];
      cbn -[Z.add Z.eqb Z.sub]; [tauto|].
    destruct e; cbn; tauto.
Qed.

Lemma main_loop_same_but_h_list start ws : forall st1 st2,
  same_but_h_list st1 st2 ->
  fst (main_loop base start ws st1) = fst (main_loop base start ws st2)
  /\ same_but_h_list (snd (main_loop base start ws st1))
       (snd (main_loop base start ws st2)).
Proof.
  induction ws as [|w ws IH]; intros st1 st2 H; cbn [main_loop];
    pose proof H as (_ & <- & _).
  - destruct (now_time st1 <? start + nine_minutes); cbn; auto.
  - destruct (now_time st1 <? start + nine_minutes); [|cbn; auto].
    unfold mbind.
    destruct (loop_body_same_but_h_list w st1 st2 H) as [Hr Hs].
    destruct (loop_body base w st1) as [r1 st1'],
             (loop_body base w st2) as [r2 st2'].
    cbn [fst snd] in Hr, Hs. subst r2.
    destruct r1 as [[] | e]; [now apply IH | cbn; auto].
Qed.

End AltitudeHistory.

(** The outcome of [main] is the outcome of its loop: closing the camera
    and writing the result never fault. *)
Lemma main_from_result h_seed io :
  fst (main_from h_seed io)
  = fst (main_loop (base_folder io) (io_start io) (io_iterations io)
           (initial_state h_seed io)).
Proof.
  unfold main_from, mbind.
  destruct (main_loop (base_folder io) (io_start io) (io_iterations io)
              (initial_state h_seed io)) as [[[|] | e] st1];
    cbn [fst]; try reflexivity.
  unfold cam_close, finalize, mbind, gets, modify, lift, ret.
  cbn [v_list set_cam_closed].
  destruct (output_string_total (v_list st1)) as (x & _ & Hx).
  now rewrite Hx.
Qed.

(** C10: the outcome of a run, the samples it collects and the text it
    writes do not depend on the value that seeds the altitude history; the
    program is the instance with seed 418000; and the text written by a
    completed run is computed from the collected samples alone. *)
Theorem result_independent_of_altitude_seed (io : run_io) (s1 s2 : R) :
  fst (main_from s1 io) = fst (main_from s2 io)
  /\ v_list (snd (main_from s1 io)) = v_list (snd (main_from s2 io))
  /\ result_file (snd (main_from s1 io))
     = result_file (snd (main_from s2 io))
  /\ main io = main_from 418000 io
  /\ (fst (main_from s1 io) = Ok true ->
      exists text,
        output_string (v_list (snd (main_from s1 io))) = Ok text
        /\ result_file (snd (main_from s1 io)) = Some text).
Proof.
  assert (Hinit : same_but_h_list (initial_state s1 io) (initial_state s2 io))
    by (repeat split).
  destruct (main_loop_same_but_h_list (base_folder io) (io_start io)
              (io_iterations io) _ _ Hinit) as [Hr Hs].
  pose proof (main_from_outcome s1 io) as H1.
  pose proof (main_from_outcome s2 io) as H2.
  pose proof (main_from_result s1 io) as R1.
  pose proof (main_from_result s2 io) as R2.
  cbn zeta in H1, H2.
  assert (Hfst : fst (main_from s1 io) = fst (main_from s2 io))
    by (rewrite R1, R2; exact Hr).
  destruct Hs as (_ & _ & _ & Hv & _ & _ & Hf & _).
  split; [exact Hfst|].
  rewrite <- Hfst in H2.
  destruct (fst (main_from s1 io)) as [[|] | e].
  - destruct H1 as (text1 & Ht1 & E1), H2 as (text2 & Ht2 & E2).
    rewrite E1, E2. rewrite <- Hv, Ht1 in Ht2. injection Ht2 as <-.
    cbn [set_result_file set_cam_closed v_list result_file].
    repeat split; auto. intros _. exists text1. auto.
  - rewrite H1, H2. repeat split; auto. discriminate.
  - rewrite H1, H2. repeat split; auto. discriminate.
Qed.

(* ----------------------------------------------------------------- *)
(** ** Faults inside and outside the guarded block *)

Section Faults.

Local Open Scope Z_scope.

Variable base : string.

Lemma capture_succeeds_of_io w st :
  io_unlink w = Ok tt -> io_capture w = Ok tt -> capture_succeeds w st.
Proof. intros Hu Hc. split; auto. Qed.

Lemma measure_and_solve_matcher_fault w kp1 kp2 dt :
  io_match w = Raise cv2_error ->
  measure_and_solve w kp1 kp2 dt = Raise cv2_error.
Proof.
  intros H. unfold measure_and_solve, calculate_matches. now rewrite H.
Qed.

Lemma measure_and_solve_no_match w kp1 kp2 dt :
  io_match w = Ok [] ->
  measure_and_solve w kp1 kp2 dt = Ok (seed_velocity, 400000%R).
Proof.
  intros H. rewrite measure_and_solve_displacement.
  rewrite (measured_displacement_pairs w kp1 kp2 [] H). cbn [bind].
  apply solve_zero_displacement.
Qed.

(** Samples on both sides of a pass whose matcher fails. *)
Lemma main_loop_around_matcher_fault
    start w1 w2 w3 ws st kps1 kps2 kps3 v1 h1 v3 h3 :
  0 <= k st ->
  now_time st < start + nine_minutes ->
  io_now w1 < start + nine_minutes ->
  io_now w2 < start + nine_minutes ->
  (forall w, In w [w1; w2; w3] -> io_unlink w = Ok tt /\ io_capture w = Ok tt) ->
  io_features w1 = Ok kps1 -> io_features w2 = Ok kps2 ->
  io_features w3 = Ok kps3 ->
  measure_and_solve w1 (fst kps1) (snd kps1)
    (total_seconds (io_now w1 - now_time st)) = Ok (v1, h1) ->
  io_match w2 = Raise cv2_error ->
  measure_and_solve w3 (fst kps3) (snd kps3)
    (total_seconds (io_now w3 - io_now w2)) = Ok (v3, h3) ->
  exists st3,
    main_loop base start (w1 :: w2 :: w3 :: ws) st
    = main_loop base start ws st3
    /\ v_list st3 = v_list st ++ [v1; v3]
    /\ k st3 = k st + 3.
Proof.
  intros Hk Ht0 Ht1 Ht2 Hio Hf1 Hf2 Hf3 Hm1 Hm2 Hm3.
  destruct (Hio w1) as [Hu1 Hc1]; [cbn; auto|].
  destruct (Hio w2) as [Hu2 Hc2]; [cbn; auto|].
  destruct (Hio w3) as [Hu3 Hc3]; [cbn; auto|].
  set (st1 := set_h_list (h_list st ++ [h1])
                (set_v_list (v_list st ++ [v1]) (after_capture base w1 st))).
  set (st2 := after_capture base w2 st1).
  set (st3 := set_h_list (h_list st2 ++ [h3])
                (set_v_list (v_list st2 ++ [v3]) (after_capture base w3 st2))).
  assert (E1 : loop_body base w1 st = (Ok tt, st1)).
  { apply (loop_body_sample base w1 st kps1); auto.
    - now apply capture_succeeds_of_io.
    - lia. }
  assert (E2 : loop_body base w2 st1 = (Ok tt, st2)).
  { apply (loop_body_caught base w2 st1 kps2 cv2_error); auto.
    - now apply capture_succeeds_of_io.
    - cbn. lia.
    - now apply measure_and_solve_matcher_fault. }
  assert (E3 : loop_body base w3 st2 = (Ok tt, st3)).
  { apply (loop_body_sample base w3 st2 kps3); auto.
    - now apply capture_succeeds_of_io.
    - cbn. lia. }
  exists st3. split; [|split].
  - rewrite (main_loop_proceeds base start w1 _ st st1 Ht0 E1).
    rewrite (main_loop_proceeds base start w2 _ st1 st2 Ht1 E2).
    now rewrite (main_loop_proceeds base start w3 _ st2 st3 Ht2 E3).
  - cbn. now rewrite <- app_assoc.
  - cbn. lia.
Qed.

End Faults.

(** C2, as the code has it: a [cv2.error] or a [ZeroDivisionError] raised
    by descriptor matching, by the coordinate look-up, by the mean distance
    or by the solver is passed over; the pass then ends normally with the
    sample sequence unchanged and the loop goes on with the next pass.  In
    particular a matcher failure on one frame pair does not prevent the
    samples of the pairs before and after it from being recorded. *)
Theorem guarded_faults_do_not_halt_the_loop (base : string) (start : Z) :
  (forall w ws st kps e,
      capture_succeeds w st -> (k st + 1 <> 0)%Z ->
      io_features w = Ok kps ->
      measure_and_solve w (fst kps) (snd kps)
        (total_seconds (io_now w - now_time st)) = Raise e ->
      e = cv2_error \/ e = ZeroDivisionError ->
      (now_time st < start + nine_minutes)%Z ->
      loop_body base w st = (Ok tt, after_capture base w st)
      /\ v_list (after_capture base w st) = v_list st
      /\ k (after_capture base w st) = (k st + 1)%Z
      /\ main_loop base start (w :: ws) st
         = main_loop base start ws (after_capture base w st))
  /\ (forall w1 w2 w3 ws st kps1 kps2 kps3 v1 h1 v3 h3,
      (0 <= k st)%Z ->
      (now_time st < start + nine_minutes)%Z ->
      (io_now w1 < start + nine_minutes)%Z ->
      (io_now w2 < start + nine_minutes)%Z ->
      (forall w, In w [w1; w2; w3] ->
                 io_unlink w = Ok tt /\ io_capture w = Ok tt) ->
      io_features w1 = Ok kps1 -> io_features w2 = Ok kps2 ->
      io_features w3 = Ok kps3 ->
      measure_and_solve w1 (fst kps1) (snd kps1)
        (total_seconds (io_now w1 - now_time st)) = Ok (v1, h1) ->
      io_match w2 = Raise cv2_error ->
      measure_and_solve w3 (fst kps3) (snd kps3)
        (total_seconds (io_now w3 - io_now w2)) = Ok (v3, h3) ->
      exists st3,
        main_loop base start (w1 :: w2 :: w3 :: ws) st
        = main_loop base start ws st3
        /\ v_list st3 = v_list st ++ [v1; v3]
        /\ k st3 = (k st + 3)%Z).
Proof.
  split.
  - intros w ws st kps e Hc Hk Hf Hm He Ht.
    pose proof (loop_body_caught base w st kps e Hc Hk Hf Hm He) as E.
    split; [exact E|]. split; [reflexivity|]. split; [reflexivity|].
    now apply main_loop_proceeds.
  - intros. eapply main_loop_around_matcher_fault; eassumption.
Qed.


(* ----------------------------------------------------------------- *)
(** ** Faults of the solver when the clock is set back *)

Section ClockSetBack.

Local Open Scope R_scope.



(** The altitude after the first round. *)
Lemma solver_first_round n d dt :
  d <> 0 ->
  solver_rounds (S n) d dt 400000 None
  = solver_rounds n d dt
      (seed_velocity * (d_focale * n_pixel_x / dim_sensore_x) * dt / d)
      (Some seed_velocity).
Proof.
  intros Hd. cbn [solver_rounds].
  rewrite calculate_v_from_h_ok by lra. cbn [bind]. fold seed_velocity.
  destruct (Req_dec_T d 0) as [E | _]; [contradiction|].
  pose proof dim_sensore_x_pos.
  rewrite truediv_ok by (intros Hz; apply Rmult_integral in Hz; lra).
  cbn [bind]. f_equal. field. split; lra.
Qed.





(** The displacement measured on two identical photos. *)
Lemma measured_displacement_identical :
  measured_displacement Scenario.identical_pair
    [Scenario.corner] [Scenario.corner] = Ok 0.
Proof.
  rewrite (measured_displacement_pairs Scenario.identical_pair _ _
             [mkDMatch 0 0 0] eq_refl).
  cbn [sorted_by_distance fold_right insert_by_distance matched_pairs
       nth_error queryIdx trainIdx pt Scenario.corner].
  unfold mean_euclidean_distance.
  cbn [map fold_right List.length fst snd INR].
  f_equal.
  replace ((100 - 100) ^ 2 + (200 - 200) ^ 2) with 0 by ring.
  rewrite sqrt_0. field.
Qed.


End ClockSetBack.

(* ----------------------------------------------------------------- *)
(** ** The properties on concrete runs *)



Lemma mean_displacement_of_three_moved_features :
  (Binary64.calculate_mean_distance Scenario.hypot_by_squares
     Scenario.three_features_after Scenario.three_features_before
   = Ok 1.8588304075138247
   /\ Binary64.calculate_mean_distance Scenario.hypot_by_squares
        (rev Scenario.three_features_after)
        (rev Scenario.three_features_before)
      = Ok 1.858830407513825)%float
  /\ measured_displacement (Scenario.no_match_pair 1000000) [] [] = Ok 0%R.
Proof.
  split.
  - apply (proj1 (proj2 (proj2 mean_displacement_is_left_to_right_mean))
             Scenario.hypot_by_squares); reflexivity.
  - apply (proj1 (proj2 (proj2 (proj2 (proj2
             mean_displacement_is_left_to_right_mean))))
             (Scenario.no_match_pair 1000000) [] []).
    reflexivity.
Defined.

(** Against C8 as stated: three features that have moved by (0, 1), (1, 1)
    and (1, 3) pixels have the distances 1, [sqrt 2] and [sqrt 10].  Taken
    in this order the function returns 1.8588304075138247; with the same
    pairs in the reverse order it returns 1.858830407513825. *)
Lemma mean_displacement_depends_on_the_order_of_the_pairs :
  map (Binary64.pair_distance Scenario.hypot_by_squares)
    (combine Scenario.three_features_after Scenario.three_features_before)
  = [1; 1.4142135623730951; 3.1622776601683795]%float
  /\ Permutation
       (combine Scenario.three_features_after
          Scenario.three_features_before)
       (combine (rev Scenario.three_features_after)
          (rev Scenario.three_features_before))
  /\ Binary64.calculate_mean_distance Scenario.hypot_by_squares
       Scenario.three_features_after Scenario.three_features_before
     = Ok 1.8588304075138247%float
  /\ Binary64.calculate_mean_distance Scenario.hypot_by_squares
       (rev Scenario.three_features_after)
       (rev Scenario.three_features_before)
     = Ok 1.858830407513825%float
  /\ Binary64.calculate_mean_distance Scenario.hypot_by_squares
       Scenario.three_features_after Scenario.three_features_before
     <> Binary64.calculate_mean_distance Scenario.hypot_by_squares
          (rev Scenario.three_features_after)
          (rev Scenario.three_features_before).
Proof.
  split; [vm_compute; reflexivity|].
  split.
  { change (combine (rev Scenario.three_features_after)
              (rev Scenario.three_features_before))
      with (rev (combine Scenario.three_features_after
                   Scenario.three_features_before)).
    apply Permutation_rev. }
  split; [vm_compute; reflexivity|].
  split; [vm_compute; reflexivity|].
  intros E.
  assert (H : match Binary64.calculate_mean_distance
                      Scenario.hypot_by_squares
                      Scenario.three_features_after
                      Scenario.three_features_before with
              | Ok x => (x =? 1.8588304075138247)%float
              | Raise _ => false
              end = true) by (vm_compute; reflexivity).
  rewrite E in H. vm_compute in H. discriminate H.
Qed.

Lemma capture_succeeds_after_first_photo w t :
  io_capture w = Ok tt -> capture_succeeds w (Scenario.after_first_photo t).
Proof. intros H. split; [discriminate | exact H]. Qed.

Lemma zero_displacement_on_identical_photos :
  v_list (snd (loop_body Scenario.folder Scenario.identical_pair
                 (Scenario.after_first_photo 0)))
  = [sqrt (G_default * M_default / (R_default + 400000))].
Proof.
  apply (zero_displacement_appends_seed_velocity Scenario.folder
           Scenario.identical_pair (Scenario.after_first_photo 0)
           ([Scenario.corner], [Scenario.corner])).
  - now apply capture_succeeds_after_first_photo.
  - discriminate.
  - reflexivity.
  - apply measured_displacement_identical.
Defined.

Lemma identical_photos_do_not_fault :
  fst (loop_body Scenario.folder Scenario.identical_pair
         (Scenario.after_first_photo 0)) = Ok tt.
Proof.
  apply (zero_displacement_is_not_a_fault Scenario.folder
           Scenario.identical_pair (Scenario.after_first_photo 0)
           ([Scenario.corner], [Scenario.corner])).
  - now apply capture_succeeds_after_first_photo.
  - discriminate.
  - reflexivity.
  - apply measured_displacement_identical.
Defined.

(** Against C1 as stated: two identical photos have mean displacement 0,
    and the pass nevertheless runs the solver and appends a velocity
    sample to the empty sample sequence. *)
Lemma identical_photos_append_a_sample :
  measured_displacement Scenario.identical_pair
    [Scenario.corner] [Scenario.corner] = Ok 0%R
  /\ v_list (Scenario.after_first_photo 0) = []
  /\ loop_body Scenario.folder Scenario.identical_pair
       (Scenario.after_first_photo 0)
     = (Ok tt,
        set_h_list [418000%R; 400000%R]
          (set_v_list [seed_velocity]
             (after_capture Scenario.folder Scenario.identical_pair
                (Scenario.after_first_photo 0))))
  /\ v_list (snd (loop_body Scenario.folder Scenario.identical_pair
                    (Scenario.after_first_photo 0)))
     <> v_list (Scenario.after_first_photo 0).
Proof.
  assert (E : loop_body Scenario.folder Scenario.identical_pair
                (Scenario.after_first_photo 0)
              = (Ok tt,
                 set_h_list [418000%R; 400000%R]
                   (set_v_list [seed_velocity]
                      (after_capture Scenario.folder Scenario.identical_pair
                         (Scenario.after_first_photo 0))))).
  { apply (loop_body_sample Scenario.folder Scenario.identical_pair
             (Scenario.after_first_photo 0)
             ([Scenario.corner], [Scenario.corner])).
    - now apply capture_succeeds_after_first_photo.
    - discriminate.
    - reflexivity.
    - rewrite measure_and_solve_displacement.
      cbn [fst snd]. rewrite measured_displacement_identical. cbn [bind].
      apply solve_zero_displacement. }
  split; [apply measured_displacement_identical|].
  split; [reflexivity|]. split; [exact E|].
  rewrite E. discriminate.
Qed.

(** Against C2 as stated: a failing capture in the second pass is not
    caught; the run ends with that exception, the third pass is never
    entered and no result is written.  The same holds when feature
    detection fails. *)
Lemma capture_fault_halts_the_loop :
  fst (main Scenario.run_with_capture_fault) = Raise PiCameraError
  /\ k (snd (main Scenario.run_with_capture_fault)) = 1%Z
  /\ result_file (snd (main Scenario.run_with_capture_fault)) = None
  /\ fst (main Scenario.run_with_detector_fault) = Raise cv2_error
  /\ k (snd (main Scenario.run_with_detector_fault)) = 1%Z.
Proof. repeat split; reflexivity. Qed.

(** Against C7 as stated: when the run is left through an uncaught
    exception the camera has not been closed. *)
Lemma camera_left_open_after_fatal_fault :
  fst (main Scenario.run_with_detector_fault) = Raise cv2_error
  /\ cam_closed (snd (main Scenario.run_with_detector_fault)) = 0%nat.
Proof. split; reflexivity. Qed.


Lemma samples_around_a_matcher_fault :
  exists st3,
    main_loop Scenario.folder 0
      [Scenario.no_match_pair 1000000; Scenario.matcher_fault 2000000;
       Scenario.no_match_pair 3000000]
      (Scenario.after_first_photo 0)
    = main_loop Scenario.folder 0 [] st3
    /\ v_list st3 = [] ++ [seed_velocity; seed_velocity]
    /\ k st3 = (0 + 3)%Z.
Proof.
  apply (proj2 (guarded_faults_do_not_halt_the_loop Scenario.folder 0)
           (Scenario.no_match_pair 1000000) (Scenario.matcher_fault 2000000)
           (Scenario.no_match_pair 3000000) [] (Scenario.after_first_photo 0)
           ([], []) ([], []) ([], [])
           seed_velocity 400000%R seed_velocity 400000%R).
  - discriminate.
  - reflexivity.
  - reflexivity.
  - reflexivity.
  - intros w [<- | [<- | [<- | []]]]; split; reflexivity.
  - reflexivity.
  - reflexivity.
  - reflexivity.
  - now apply measure_and_solve_no_match.
  - reflexivity.
  - now apply measure_and_solve_no_match.
Defined.

Lemma long_run_keeps_newest_42 :
  fst (main Scenario.long_run) = Ok false
  /\ Z.to_nat (k (snd (main Scenario.long_run)) + 1) = 44%nat
  /\ List.length (images_deque (snd (main Scenario.long_run))) = 42%nat
  /\ List.length (unlinked (snd (main Scenario.long_run)))
     = (Z.to_nat (k (snd (main Scenario.long_run)) + 1) - 42)%nat.
Proof.
  assert (Hrun : fst (main Scenario.long_run) = Ok false) by reflexivity.
  assert (HN : Z.to_nat (k (snd (main Scenario.long_run)) + 1) = 44%nat)
    by reflexivity.
  split; [exact Hrun|]. split; [exact HN|].
  pose proof (proj1 (proj2 (proj2 (frame_buffer_keeps_newest_42
                                     Scenario.long_run) false Hrun))) as H.
  cbn zeta in H. rewrite HN in H.
  destruct H as (H1 & _ & H3); [lia|].
  rewrite HN. split; [exact H1 | exact H3].
Defined.


Lemma finished_run_writes_from_its_samples :
  exists text,
    output_string (v_list (snd (main_from 0 Scenario.finished_run))) = Ok text
    /\ result_file (snd (main_from 0 Scenario.finished_run)) = Some text.
Proof.
  apply (result_independent_of_altitude_seed Scenario.finished_run 0 1).
  rewrite main_from_result. reflexivity.
Defined.

Lemma fallback_is_printed_with_four_digits :
  exists n,
    Binary64.nearest_even 8633062715697188 (-50) n
    /\ (0 <= n)%Z
    /\ Binary64.format_4f 7.6677
       = ("" ++ str (n / 10000) ++ "." ++ zfill4 (n mod 10000))%string
    /\ fraction_digits (Binary64.format_4f 7.6677) = Some 4%nat.
Proof.
  apply (proj1 (proj2 (proj2 finalize_writes_rounded_mean_or_fallback))
           7.6677%float false 8633062715697188%positive (-50)%Z).
  reflexivity.
Defined.

(** Against C4 as stated: a run whose second capture fails ends with that
    exception inside the loop; the lines that compute and write the result
    are never reached, and no result file exists afterwards. *)
Lemma run_with_capture_fault_writes_no_result :
  fst (main Scenario.run_with_capture_fault) = Raise PiCameraError
  /\ io_prior_result Scenario.run_with_capture_fault = None
  /\ write_count (snd (main Scenario.run_with_capture_fault)) = 0%nat
  /\ result_file (snd (main Scenario.run_with_capture_fault)) = None.
Proof. repeat split; reflexivity. Qed.

(* ================================================================= *)
(** * Further properties of the functions *)

(* ----------------------------------------------------------------- *)
(** ** [calculate_matches] and [find_matching_coordinates] *)

Section Matches.

Local Open Scope R_scope.

Lemma insert_by_distance_hd m l m0 :
  distance m0 <= distance m ->
  HdRel (fun a b => distance a <= distance b) m0 l ->
  HdRel (fun a b => distance a <= distance b) m0 (insert_by_distance m l).
Proof.
  intros Hm H. destruct l as [|m' l]; cbn.
  - now constructor.
  - destruct (Rle_dec (distance m) (distance m')); constructor; auto.
    now inversion H.
Qed.

Lemma insert_by_distance_sorted m l :
  Sorted (fun a b => distance a <= distance b) l ->
  Sorted (fun a b => distance a <= distance b) (insert_by_distance m l).
Proof.
  induction 1 as [|m' l Hs IH Hh]; cbn.
  - repeat constructor.
  - destruct (Rle_dec (distance m) (distance m')) as [Hle | Hgt].
    + constructor; [now constructor | now constructor].
    + constructor; [exact IH|].
      apply insert_by_distance_hd; [lra | exact Hh].
Qed.

Lemma sorted_by_distance_sorted l :
  Sorted (fun a b => distance a <= distance b) (sorted_by_distance l).
Proof.
  induction l as [|m l IH]; cbn.
  - constructor.
  - now apply insert_by_distance_sorted.
Qed.

(** Inserting a match keeps the order among the matches of any one
    distance: the new match comes first among them. *)
Lemma insert_by_distance_stable (keep : DMatch -> bool) m l :
  (forall a b, keep a = true -> keep b = true -> distance a = distance b) ->
  filter keep (insert_by_distance m l) = filter keep (m :: l).
Proof.
  intros Hk. induction l as [|m' l IH]; [reflexivity|].
  cbn [insert_by_distance].
  destruct (Rle_dec (distance m) (distance m')) as [Hle | Hgt];
    [reflexivity|].
  cbn [filter] in *. rewrite IH.
  destruct (keep m) eqn:Em, (keep m') eqn:Em'; try reflexivity.
  exfalso. pose proof (Hk m m' Em Em'). lra.
Qed.

Lemma sorted_by_distance_stable (keep : DMatch -> bool) l :
  (forall a b, keep a = true -> keep b = true -> distance a = distance b) ->
  filter keep (sorted_by_distance l) = filter keep l.
Proof.
  intros Hk. induction l as [|m l IH]; [reflexivity|].
  cbn [sorted_by_distance fold_right].
  rewrite insert_by_distance_stable by exact Hk.
  cbn [filter]. fold (sorted_by_distance l). now rewrite IH.
Qed.

Lemma matched_pairs_in_range kp1 kp2 ms :
  Forall (fun m => (queryIdx m < List.length kp1)%nat
                   /\ (trainIdx m < List.length kp2)%nat) ms ->
  matched_pairs kp1 kp2 ms
  = Some (map (fun m => (pt (nth (queryIdx m) kp1 (mkKeyPoint (0, 0))),
                         pt (nth (trainIdx m) kp2 (mkKeyPoint (0, 0))))) ms).
Proof.
  induction 1 as [|m ms [H1 H2] _ IH]; [reflexivity|].
  cbn [matched_pairs map].
  rewrite (nth_error_nth' kp1 (mkKeyPoint (0, 0)) H1).
  rewrite (nth_error_nth' kp2 (mkKeyPoint (0, 0)) H2).
  now rewrite IH.
Qed.

Lemma matched_pairs_out_of_range kp1 kp2 ms :
  Exists (fun m => (List.length kp1 <= queryIdx m)%nat
                   \/ (List.length kp2 <= trainIdx m)%nat) ms ->
  matched_pairs kp1 kp2 ms = None.
Proof.
  induction 1 as [m ms [H | H] | m ms _ IH]; cbn [matched_pairs].
  - apply nth_error_None in H. now rewrite H.
  - apply nth_error_None in H. rewrite H.
    now destruct (nth_error kp1 (queryIdx m)).
  - rewrite IH.
    now destruct (nth_error kp1 (queryIdx m)),
                 (nth_error kp2 (trainIdx m)).
Qed.

End Matches.

(** X1: [calculate_matches] hands on a failure of the matcher unchanged;
    otherwise it returns the matcher's matches, each exactly once, in
    ascending order of distance, and matches of equal distance keep the
    order the matcher gave them. *)
Theorem calculate_matches_sorts_by_distance :
  (forall e, calculate_matches (Raise e) = Raise e)
  /\ (forall ms, exists out,
         calculate_matches (Ok ms) = Ok out
         /\ Permutation out ms
         /\ StronglySorted (fun a b => (distance a <= distance b)%R) out
         /\ (forall d,
               filter (fun m => if Req_dec_T (distance m) d
                                then true else false) out
               = filter (fun m => if Req_dec_T (distance m) d
                                  then true else false) ms)).
Proof.
  split; [reflexivity|]. intros ms. exists (sorted_by_distance ms).
  split; [reflexivity|]. split; [apply sorted_by_distance_permutation|].
  split.
  - apply Sorted_StronglySorted.
    + intros a b c Hab Hbc. lra.
    + apply sorted_by_distance_sorted.
  - intros d. apply sorted_by_distance_stable. intros a b Ha Hb.
    destruct (Req_dec_T (distance a) d); [|discriminate].
    destruct (Req_dec_T (distance b) d); [|discriminate].
    congruence.
Qed.

(** X2: [find_matching_coordinates] succeeds exactly when every match
    indexes an existing key point in both photos.  It then returns, for the
    matches in their order, the positions of the key points they index, so
    both lists are as long as the list of matches; otherwise it raises
    [IndexError]. *)
Theorem find_matching_coordinates_looks_up_each_match
    (kp1 kp2 : list KeyPoint) (ms : list DMatch) :
  (Forall (fun m => (queryIdx m < List.length kp1)%nat
                    /\ (trainIdx m < List.length kp2)%nat) ms ->
   find_matching_coordinates kp1 kp2 ms
   = Ok (map (fun m => pt (nth (queryIdx m) kp1 (mkKeyPoint (0, 0)%R))) ms,
         map (fun m => pt (nth (trainIdx m) kp2 (mkKeyPoint (0, 0)%R))) ms))
  /\ (Exists (fun m => (List.length kp1 <= queryIdx m)%nat
                       \/ (List.length kp2 <= trainIdx m)%nat) ms ->
      find_matching_coordinates kp1 kp2 ms = Raise IndexError)
  /\ (forall c1 c2,
         find_matching_coordinates kp1 kp2 ms = Ok (c1, c2) ->
         List.length c1 = List.length ms /\ List.length c2 = List.length ms).
Proof.
  rewrite find_matching_coordinates_pairs. split; [|split].
  - intros H. rewrite (matched_pairs_in_range kp1 kp2 ms H).
    now rewrite !map_map.
  - intros H. now rewrite (matched_pairs_out_of_range kp1 kp2 ms H).
  - intros c1 c2 H.
    destruct (matched_pairs kp1 kp2 ms) as [ps|] eqn:E; [|discriminate].
    injection H as <- <-. rewrite !length_map.
    assert (L : forall l ps', matched_pairs kp1 kp2 l = Some ps' ->
                              List.length ps' = List.length l).
    { induction l as [|m l IH]; intros ps' H'; cbn in H'.
      - now injection H' as <-.
      - destruct (nth_error kp1 (queryIdx m)); [|discriminate].
        destruct (nth_error kp2 (trainIdx m)); [|discriminate].
        destruct (matched_pairs kp1 kp2 l) as [qs|]; [|discriminate].
        injection H' as <-. cbn. now rewrite (IH qs eq_refl). }
    now rewrite (L ms ps E).
Qed.

Lemma find_matching_coordinates_on_two_matches :
  find_matching_coordinates
    [mkKeyPoint (3, 0)%R; mkKeyPoint (0, 4)%R]
    [mkKeyPoint (0, 0)%R; mkKeyPoint (1, 1)%R]
    [mkDMatch 1 0 5%R; mkDMatch 0 1 7%R]
  = Ok ([(0, 4)%R; (3, 0)%R], [(0, 0)%R; (1, 1)%R]).
Proof.
  apply (proj1 (find_matching_coordinates_looks_up_each_match
                  [mkKeyPoint (3, 0)%R; mkKeyPoint (0, 4)%R]
                  [mkKeyPoint (0, 0)%R; mkKeyPoint (1, 1)%R]
                  [mkDMatch 1 0 5%R; mkDMatch 0 1 7%R])).
  repeat constructor.
Defined.

(* ----------------------------------------------------------------- *)
(** ** [calculate_mean_distance] *)

Section MeanDistanceFacts.

Local Open Scope R_scope.

Lemma mean_euclidean_distance_nil : mean_euclidean_distance [] = 0.
Proof. unfold mean_euclidean_distance. cbn. unfold Rdiv. ring. Qed.

(** The guard for the empty list agrees with the mean. *)
Lemma calculate_mean_distance_combine c1 c2 :
  calculate_mean_distance c1 c2
  = Ok (mean_euclidean_distance (combine c1 c2)).
Proof.
  rewrite calculate_mean_distance_mean.
  destruct (combine c1 c2); [now rewrite mean_euclidean_distance_nil|].
  reflexivity.
Qed.

Lemma mean_euclidean_distance_total l :
  mean_euclidean_distance l
  = total (map pair_distance l) / INR (List.length l).
Proof.
  unfold mean_euclidean_distance, total. do 2 f_equal.
  apply map_ext. intros c. symmetry. apply pair_distance_euclidean.
Qed.

(** The mean is the same for two lists of pairs of the same distances. *)
Lemma mean_euclidean_distance_map (g : point * point -> point * point) l :
  (forall c, pair_distance (g c) = pair_distance c) ->
  mean_euclidean_distance (map g l) = mean_euclidean_distance l.
Proof.
  intros Hg. rewrite !mean_euclidean_distance_total, length_map, map_map.
  do 2 f_equal. apply map_ext. exact Hg.
Qed.

Lemma combine_map_both {A B : Type} (f : A -> B) (l1 l2 : list A) :
  combine (map f l1) (map f l2)
  = map (fun c => (f (fst c), f (snd c))) (combine l1 l2).
Proof.
  revert l2. induction l1 as [|a l1 IH]; intros [|b l2]; cbn;
    try reflexivity. now rewrite IH.
Qed.

Lemma combine_swap {A : Type} (l1 l2 : list A) :
  combine l2 l1 = map (fun c => (snd c, fst c)) (combine l1 l2).
Proof.
  revert l2. induction l1 as [|a l1 IH]; intros [|b l2]; cbn;
    try reflexivity. now rewrite IH.
Qed.

Lemma combine_app_l {A : Type} (l1 l2 extra : list A) :
  List.length l1 = List.length l2 ->
  combine (l1 ++ extra) l2 = combine l1 l2.
Proof.
  revert l2. induction l1 as [|a l1 IH]; intros [|b l2] H; cbn in *;
    try discriminate.
  - now destruct extra.
  - f_equal. apply IH. now injection H.
Qed.

Lemma combine_app_r {A : Type} (l1 l2 extra : list A) :
  List.length l1 = List.length l2 ->
  combine l1 (l2 ++ extra) = combine l1 l2.
Proof.
  revert l2. induction l1 as [|a l1 IH]; intros [|b l2] H; cbn in *;
    try discriminate; [reflexivity|].
  f_equal. apply IH. now injection H.
Qed.

Lemma total_nonneg l : Forall (fun x => 0 <= x) l -> 0 <= total l.
Proof.
  induction 1 as [|x l Hx _ IH]; unfold total in *; cbn; lra.
Qed.

Lemma pair_distance_zero c : pair_distance c = 0 <-> fst c = snd c.
Proof.
  destruct c as [[x1 y1] [x2 y2]]. unfold pair_distance, math_hypot.
  cbn [fst snd]. split.
  - intros H.
    pose proof (Rle_0_sqr (x1 - x2)) as Hx.
    pose proof (Rle_0_sqr (y1 - y2)) as Hy. unfold Rsqr in Hx, Hy.
    apply sqrt_eq_0 in H; [|lra].
    assert (Ex : (x1 - x2) * (x1 - x2) = 0) by lra.
    assert (Ey : (y1 - y2) * (y1 - y2) = 0) by lra.
    apply Rsqr_0_uniq in Ex. apply Rsqr_0_uniq in Ey.
    f_equal; lra.
  - intros E. injection E as -> ->.
    replace ((x2 - x2) * (x2 - x2) + (y2 - y2) * (y2 - y2)) with 0 by ring.
    apply sqrt_0.
Qed.

Lemma total_of_coincident_pairs l :
  Forall (fun c : point * point => fst c = snd c) l ->
  total (map pair_distance l) = 0.
Proof.
  induction 1 as [|c l Hc _ IH]; [reflexivity|].
  change (total (map pair_distance (c :: l)))
    with (pair_distance c + total (map pair_distance l)).
  apply pair_distance_zero in Hc. rewrite Hc, IH. lra.
Qed.

End MeanDistanceFacts.

(** X3: the mean distance depends only on the differences between the two
    photos: it is the same when the two coordinate lists are exchanged, and
    the same when every coordinate of both lists is moved by one offset. *)
Theorem mean_distance_symmetric_and_translation_invariant
    (c1 c2 : list point) :
  calculate_mean_distance c2 c1 = calculate_mean_distance c1 c2
  /\ (forall a b : R,
         calculate_mean_distance
           (map (fun p => (fst p + a, snd p + b)%R) c1)
           (map (fun p => (fst p + a, snd p + b)%R) c2)
         = calculate_mean_distance c1 c2).
Proof.
  split.
  - rewrite !calculate_mean_distance_combine, (combine_swap c1 c2).
    f_equal. apply mean_euclidean_distance_map.
    intros [[x1 y1] [x2 y2]]. unfold pair_distance, math_hypot.
    cbn [fst snd]. f_equal. ring.
  - intros a b.
    rewrite !calculate_mean_distance_combine, combine_map_both.
    f_equal. apply mean_euclidean_distance_map.
    intros [[x1 y1] [x2 y2]]. unfold pair_distance, math_hypot.
    cbn [fst snd]. f_equal. ring.
Qed.

(** X4: when every matched feature has the same coordinates in both
    photos (in particular when there is no match) the mean distance is
    0. *)
Theorem mean_distance_zero_when_no_feature_moved (c1 c2 : list point) :
  Forall (fun c => fst c = snd c) (combine c1 c2) ->
  calculate_mean_distance c1 c2 = Ok 0%R.
Proof.
  intros H.
  rewrite calculate_mean_distance_combine, mean_euclidean_distance_total.
  f_equal.
  rewrite (total_of_coincident_pairs (combine c1 c2) H). unfold Rdiv. ring.
Qed.

Lemma mean_distance_of_two_unmoved_features :
  calculate_mean_distance [(3, 4)%R; (100, 200)%R] [(3, 4)%R; (100, 200)%R]
  = Ok 0%R.
Proof.
  apply (mean_distance_zero_when_no_feature_moved
           [(3, 4)%R; (100, 200)%R] [(3, 4)%R; (100, 200)%R]).
  repeat constructor.
Defined.

(** X6: as [zip] stops at the shorter list, coordinates beyond the length
    of the other list are ignored. *)
Theorem mean_distance_ignores_unpaired_coordinates
    (c1 c2 extra : list point) :
  List.length c1 = List.length c2 ->
  calculate_mean_distance (c1 ++ extra) c2 = calculate_mean_distance c1 c2
  /\ calculate_mean_distance c1 (c2 ++ extra)
     = calculate_mean_distance c1 c2.
Proof.
  intros H. rewrite !calculate_mean_distance_combine.
  now rewrite combine_app_l, combine_app_r.
Qed.

Lemma mean_distance_ignores_a_third_point :
  calculate_mean_distance ([(3, 0)%R] ++ [(9, 9)%R]) [(0, 0)%R]
  = calculate_mean_distance [(3, 0)%R] [(0, 0)%R].
Proof.
  apply (mean_distance_ignores_unpaired_coordinates
           [(3, 0)%R] [(0, 0)%R] [(9, 9)%R]).
  reflexivity.
Defined.

(* ----------------------------------------------------------------- *)
(** ** [calculate_v_from_h] and the rounds of the solver *)

Section OrbitalLaw.

Local Open Scope R_scope.

Lemma orbital_ratio_pos_above h :
  - R_default < h -> 0 < G_default * M_default / (R_default + h).
Proof.
  intros Hh. apply Rdiv_lt_0_compat; [apply GM_pos | lra].
Qed.

Lemma calculate_v_from_h_above h :
  - R_default < h ->
  calculate_v_from_h h = Ok (sqrt (G_default * M_default / (R_default + h))).
Proof.
  intros Hh. unfold calculate_v_from_h, calculate_v_from_h_with.
  rewrite truediv_ok by lra. cbn [bind].
  apply math_sqrt_ok. left. now apply orbital_ratio_pos_above.
Qed.


(** The speed at ground level bounds every speed at a higher altitude. *)
Lemma orbital_speed_at_most_ground_speed h :
  0 <= h ->
  sqrt (G_default * M_default / (R_default + h))
  <= sqrt (G_default * M_default / R_default).
Proof.
  intros Hh. pose proof GM_pos. pose proof R_default_pos.
  apply sqrt_le_1_alt. unfold Rdiv.
  apply Rmult_le_compat_l; [lra|].
  apply Rinv_le_contravar; lra.
Qed.

Lemma ground_speed_bound : sqrt (G_default * M_default / R_default) < 7906.
Proof.
  rewrite <- (sqrt_square 7906) at 1 by lra.
  apply sqrt_lt_1_alt. split.
  - left. apply Rdiv_lt_0_compat; [apply GM_pos | apply R_default_pos].
  - unfold G_default, M_default, R_default. lra.
Qed.

Lemma sensor_width_times_nonzero x : x <> 0 -> dim_sensore_x * x <> 0.
Proof.
  intros Hx Hz. pose proof dim_sensore_x_pos.
  apply Rmult_integral in Hz. destruct Hz; [lra | contradiction].
Qed.

(** With no time elapsed the altitude drops to 0 in the first round and
    stays there. *)
Lemma solver_rounds_at_ground d n : forall v,
  d <> 0 ->
  solver_rounds n d 0 0 v
  = Ok (match n with
        | O => v
        | S _ => Some (sqrt (G_default * M_default / R_default))
        end, 0).
Proof.
  induction n as [|n IH]; intros v Hd; [reflexivity|].
  cbn [solver_rounds]. pose proof R_default_pos. pose proof dim_sensore_x_pos.
  rewrite calculate_v_from_h_above by lra. cbn [bind].
  destruct (Req_dec_T d 0) as [E | _]; [contradiction|].
  rewrite truediv_ok by (now apply sensor_width_times_nonzero).
  cbn [bind]. rewrite Rmult_0_r, Rplus_0_r, IH by exact Hd.
  now destruct n.
Qed.

(** The sample of a pair taken with the clock running forward. *)
Lemma solve_sample_bounds d dt :
  0 <= d -> 0 < dt ->
  exists v h,
    solve d dt = Ok (v, h)
    /\ 0 < v <= sqrt (G_default * M_default / R_default)
    /\ 0 <= h.
Proof.
  intros Hd Hdt.
  exists (spec_velocity d dt 8), (spec_altitude d dt 8).
  split; [now apply solver_rounds_solve|].
  pose proof (spec_altitude_nonneg d dt Hd Hdt 7) as H7.
  split; [|now apply spec_altitude_nonneg].
  unfold spec_velocity, spec_round. cbn [pred fst]. split.
  - apply sqrt_lt_R0. now apply orbital_ratio_pos.
  - now apply orbital_speed_at_most_ground_speed.
Qed.

Lemma solve_sample_plausible d dt :
  resolvable d -> measurable dt ->
  exists v h, solve d dt = Ok (v, h) /\ plausible v /\ 0 <= h.
Proof.
  intros Hd Hdt. unfold resolvable, measurable, plausible in *.
  assert (Hd' : 0 <= d) by lra.
  assert (Hdt' : 0 < dt) by lra.
  destruct (solve_sample_bounds d dt Hd' Hdt') as (v & h & Hs & Hv & Hh).
  exists v, h. pose proof ground_speed_bound. repeat split; try tauto; lra.
Qed.

End OrbitalLaw.



(** X8: above minus the radius the speed does not increase with the
    altitude. *)
Theorem calculate_v_from_h_does_not_increase (h1 h2 : R) :
  (- R_default < h1)%R -> (h1 <= h2)%R ->
  exists v1 v2,
    calculate_v_from_h h1 = Ok v1 /\ calculate_v_from_h h2 = Ok v2
    /\ (v2 <= v1)%R.
Proof.
  intros H1 H2.
  exists (sqrt (G_default * M_default / (R_default + h1))),
         (sqrt (G_default * M_default / (R_default + h2))).
  split; [now apply calculate_v_from_h_above|].
  split; [apply calculate_v_from_h_above; lra|].
  pose proof GM_pos.
  apply sqrt_le_1_alt. unfold Rdiv.
  apply Rmult_le_compat_l; [lra|].
  apply Rinv_le_contravar; lra.
Qed.

Lemma speed_at_418_km_not_above_speed_at_400_km :
  exists v1 v2,
    calculate_v_from_h 400000 = Ok v1 /\ calculate_v_from_h 418000 = Ok v2
    /\ (v2 <= v1)%R.
Proof.
  apply (calculate_v_from_h_does_not_increase 400000 418000).
  - pose proof R_default_pos. lra.
  - lra.
Defined.

(** X10: when no time has elapsed between two photos and the displacement
    lies between a millionth of a pixel and a million pixels, the altitude
    is set to 0 in the first round and the solver returns the orbital speed
    at ground level, [sqrt (G M / R)]. *)
Theorem solve_with_no_elapsed_time_returns_ground_speed (d : R) :
  (1 / 1000000 <= d <= 1000000)%R ->
  solve d 0 = Ok (sqrt (G_default * M_default / R_default), 0%R).
Proof.
  intros Hb. assert (Hd : d <> 0%R) by lra.
  unfold solve, n_iteration.
  rewrite solver_first_round by exact Hd.
  replace (seed_velocity * (d_focale * n_pixel_x / dim_sensore_x) * 0 / d)%R
    with 0%R
    by (pose proof dim_sensore_x_pos; field; split; [lra | exact Hd]).
  now rewrite (solver_rounds_at_ground d 7 _ Hd).
Qed.

Lemma solve_on_one_pixel_and_no_time :
  solve 1 0 = Ok (sqrt (G_default * M_default / R_default), 0%R).
Proof.
  apply (solve_with_no_elapsed_time_returns_ground_speed 1). lra.
Defined.

(** X11: for a displacement that is zero or between a millionth of a pixel
    and a million pixels, and an elapsed time between a microsecond and a
    million seconds, the solver does not fault, the altitude it returns is
    not negative, and the velocity it returns is positive and below
    7906 m/s. *)
Theorem solve_sample_is_positive_and_below_ground_speed (d dt : R) :
  (d = 0 \/ 1 / 1000000 <= d <= 1000000)%R ->
  (1 / 1000000 <= dt <= 1000000)%R ->
  exists v h,
    solve d dt = Ok (v, h) /\ (0 < v < 7906)%R /\ (0 <= h)%R.
Proof.
  intros Hd Hdt. now apply solve_sample_plausible.
Qed.

Lemma solve_sample_on_ten_pixels_is_bounded :
  exists v h,
    solve 10 1 = Ok (v, h) /\ (0 < v < 7906)%R /\ (0 <= h)%R.
Proof.
  apply (solve_sample_is_positive_and_below_ground_speed 10 1); lra.
Defined.

(* ----------------------------------------------------------------- *)
(** ** The counter, the clock and the two lists of results *)

Section Bookkeeping.

Local Open Scope Z_scope.

Variable base : string.

(** What a pass does, whatever its outcome, to the counter, the clock and
    the two lists: it appends nothing, or the result of the solver to
    both. *)
Lemma loop_body_lists w st :
  k (snd (loop_body base w st)) = k st + 1
  /\ now_time (snd (loop_body base w st)) = io_now w
  /\ ((v_list (snd (loop_body base w st)) = v_list st
       /\ h_list (snd (loop_body base w st)) = h_list st)
      \/ (k st + 1 <> 0
          /\ exists kps v h,
               measure_and_solve w (fst kps) (snd kps)
                 (total_seconds (io_now w - now_time st)) = Ok (v, h)
               /\ v_list (snd (loop_body base w st)) = v_list st ++ [v]
               /\ h_list (snd (loop_body base w st)) = h_list st ++ [h])).
Proof.
  run_monad. cbn -[Nat.leb Z.add Z.eqb Z.sub].
  destruct (Nat.leb 42 (List.length (images_deque st)));
    [destruct (images_deque st) as [|p dq] eqn:Edq;
     cbn -[Z.add Z.eqb Z.sub]; rewrite ?Edq; cbn -[Z.add Z.eqb Z.sub];
     [tauto|];
     destruct (io_unlink w) as [[] | e]; cbn -[Z.add Z.eqb Z.sub]; [|tauto] |];
    (destruct (io_capture w) as [[] | e]; cbn -[Z.add Z.eqb Z.sub]; [|tauto];
     destruct (k st + 1 =? 0) eqn:Ek; cbn -[Z.add Z.eqb Z.sub]; [tauto|];
     apply Z.eqb_neq in Ek;
     destruct (io_features w) as [kps | e]; cbn -[Z.add Z.eqb Z.sub];
     [|tauto];
     destruct (measure_and_solve w (fst kps) (snd kps)
                 (total_seconds (io_now w - now_time st)))
       as [[v h] | e] eqn:Em;
     cbn -[Z.add Z.eqb Z.sub];
     [split; [reflexivity|]; split; [reflexivity|]; right;
      split; [exact Ek|]; exists kps, v, h; auto
     | destruct e; cbn; tauto]).
Qed.

(** The invariant of the two lists. *)
Lemma loop_body_list_lengths w st :
  -1 <= k st ->
  List.length (h_list st) = S (List.length (v_list st)) ->
  Z.of_nat (List.length (v_list st)) <= Z.max 0 (k st) ->
  -1 <= k (snd (loop_body base w st))
  /\ List.length (h_list (snd (loop_body base w st)))
     = S (List.length (v_list (snd (loop_body base w st))))
  /\ Z.of_nat (List.length (v_list (snd (loop_body base w st))))
     <= Z.max 0 (k (snd (loop_body base w st))).
Proof.
  intros Hk Hh Hv.
  destruct (loop_body_lists w st)
    as (Ek & _ & [[Ev Eh] | (Hne & kps & v & h & _ & Ev & Eh)]);
    rewrite Ek, Ev, Eh.
  - repeat split; lia.
  - rewrite !length_app. cbn [List.length]. repeat split; lia.
Qed.

Lemma main_loop_list_lengths start ws : forall st,
  -1 <= k st ->
  List.length (h_list st) = S (List.length (v_list st)) ->
  Z.of_nat (List.length (v_list st)) <= Z.max 0 (k st) ->
  List.length (h_list (snd (main_loop base start ws st)))
  = S (List.length (v_list (snd (main_loop base start ws st))))
  /\ Z.of_nat (List.length (v_list (snd (main_loop base start ws st))))
     <= Z.max 0 (k (snd (main_loop base start ws st))).
Proof.
  induction ws as [|w ws IH]; intros st Hk Hh Hv; cbn [main_loop].
  - destruct (now_time st <? start + nine_minutes); cbn [snd]; auto.
  - destruct (now_time st <? start + nine_minutes); [|cbn [snd]; auto].
    unfold mbind.
    destruct (loop_body_list_lengths w st Hk Hh Hv) as (Hk' & Hh' & Hv').
    destruct (loop_body base w st) as [[[] | e] st1]; cbn [snd] in *.
    + now apply IH.
    + auto.
Qed.

(** The loop against the clock: it ends when a reading of the clock has
    reached the deadline, and until then it consumes every pass. *)
Lemma main_loop_clock start ws : forall st,
  match fst (main_loop base start ws st) with
  | Ok true =>
      start + nine_minutes <= now_time (snd (main_loop base start ws st))
      /\ k (snd (main_loop base start ws st))
         <= k st + Z.of_nat (List.length ws)
  | Ok false =>
      now_time (snd (main_loop base start ws st)) < start + nine_minutes
      /\ k (snd (main_loop base start ws st))
         = k st + Z.of_nat (List.length ws)
  | Raise _ =>
      k (snd (main_loop base start ws st))
      <= k st + Z.of_nat (List.length ws)
  end.
Proof.
  induction ws as [|w ws IH]; intros st; cbn [main_loop].
  - destruct (Z.ltb_spec (now_time st) (start + nine_minutes));
      cbn [fst snd List.length]; lia.
  - destruct (Z.ltb_spec (now_time st) (start + nine_minutes));
      [|cbn [fst snd List.length]; lia].
    unfold mbind.
    destruct (loop_body_lists w st) as (Ek & _ & _).
    destruct (loop_body base w st) as [[[] | e] st1]; cbn [fst snd] in *.
    + specialize (IH st1).
      destruct (fst (main_loop base start ws st1)) as [[|] | e];
        cbn [List.length]; lia.
    + cbn [List.length]. lia.
Qed.

End Bookkeeping.

(** What finalisation leaves of the loop's state: everything but the
    camera and the result file. *)
Lemma main_from_keeps_loop_state h_seed io :
  let st := snd (main_loop (base_folder io) (io_start io) (io_iterations io)
                   (initial_state h_seed io)) in
  k (snd (main_from h_seed io)) = k st
  /\ now_time (snd (main_from h_seed io)) = now_time st
  /\ images_deque (snd (main_from h_seed io)) = images_deque st
  /\ unlinked (snd (main_from h_seed io)) = unlinked st
  /\ v_list (snd (main_from h_seed io)) = v_list st
  /\ h_list (snd (main_from h_seed io)) = h_list st.
Proof.
  pose proof (main_from_outcome h_seed io) as H. cbn zeta in *.
  destruct (fst (main_from h_seed io)) as [[|] | e].
  - destruct H as (text & _ & ->). repeat split.
  - rewrite H. repeat split.
  - rewrite H. repeat split.
Qed.

(** X12: in the state a run ends in, whatever its outcome, the altitude
    list has exactly one element more than the velocity list (its seed),
    and there are at most as many velocity samples as passes after the
    first. *)
Theorem one_altitude_per_sample_and_one_sample_per_pass (io : run_io) :
  List.length (h_list (snd (main io)))
  = S (List.length (v_list (snd (main io))))
  /\ (Z.of_nat (List.length (v_list (snd (main io))))
      <= Z.max 0 (k (snd (main io))))%Z.
Proof.
  unfold main.
  destruct (main_from_keeps_loop_state 418000%R io)
    as (Ek & _ & _ & _ & Ev & Eh).
  rewrite Ek, Ev, Eh.
  apply main_loop_list_lengths; cbn; lia.
Qed.

(** X13: a run has left the loop, and written its result, only after a
    reading of the clock at or past nine minutes after the start; a run
    that is still in the loop has read the clock before that deadline in
    its latest pass and has made a pass for every answer of the
    environment; and no run makes more passes than that. *)
Theorem loop_ends_at_the_first_reading_past_nine_minutes (io : run_io) :
  match fst (main io) with
  | Ok true =>
      (io_start io + 540000000 <= now_time (snd (main io)))%Z
      /\ (k (snd (main io)) + 1
          <= Z.of_nat (List.length (io_iterations io)))%Z
  | Ok false =>
      (now_time (snd (main io)) < io_start io + 540000000)%Z
      /\ (k (snd (main io)) + 1
          = Z.of_nat (List.length (io_iterations io)))%Z
  | Raise _ =>
      (k (snd (main io)) + 1
       <= Z.of_nat (List.length (io_iterations io)))%Z
  end.
Proof.
  unfold main.
  destruct (main_from_keeps_loop_state 418000%R io) as (Ek & Et & _).
  rewrite Ek, Et, main_from_result.
  pose proof (main_loop_clock (base_folder io) (io_start io)
                (io_iterations io) (initial_state 418000%R io)) as H.
  change nine_minutes with 540000000%Z in H.
  cbn [initial_state k] in H.
  destruct (fst (main_loop (base_folder io) (io_start io)
                   (io_iterations io) (initial_state 418000%R io)))
    as [[|] | e]; lia.
Qed.

(* ----------------------------------------------------------------- *)
(** ** The final estimate *)

Section Estimate.

Local Open Scope R_scope.

Lemma total_pos x l : Forall (fun v => 0 < v) (x :: l) -> 0 < total (x :: l).
Proof.
  intros H. inversion H as [|? ? Hx Hl]; subst.
  assert (Hn : Forall (fun v => 0 <= v) l)
    by (eapply Forall_impl; [|exact Hl]; intros; cbn in *; lra).
  pose proof (total_nonneg l Hn).
  change (total (x :: l)) with (x + total l). lra.
Qed.

(** The sum of samples below a bound is below the bound times their
    number. *)
Lemma total_below x l hi :
  Forall (fun v => v < hi) (x :: l) ->
  total (x :: l) < hi * INR (List.length (x :: l)).
Proof.
  revert x. induction l as [|y l IH]; intros x H;
    inversion H as [|? ? Hx Hl]; subst.
  - unfold total. cbn. lra.
  - specialize (IH y Hl).
    change (total (x :: y :: l)) with (x + total (y :: l)).
    change (List.length (x :: y :: l)) with (S (List.length (y :: l))).
    rewrite S_INR. lra.
Qed.

End Estimate.

(* ----------------------------------------------------------------- *)
(** ** Runs in which the clock runs forward *)

Section ForwardClock.

Local Open Scope Z_scope.

Variable base : string.

(** The sample appended by a pass comes from the key points the detector
    answered in that pass. *)
Lemma loop_body_sample_source w st :
  v_list (snd (loop_body base w st)) = v_list st
  \/ exists kps v h,
       io_features w = Ok kps
       /\ measure_and_solve w (fst kps) (snd kps)
            (total_seconds (io_now w - now_time st)) = Ok (v, h)
       /\ v_list (snd (loop_body base w st)) = v_list st ++ [v].
Proof.
  run_monad. cbn -[Nat.leb Z.add Z.eqb Z.sub].
  destruct (Nat.leb 42 (List.length (images_deque st)));
    [destruct (images_deque st) as [|p dq] eqn:Edq;
     cbn -[Z.add Z.eqb Z.sub]; rewrite ?Edq; cbn -[Z.add Z.eqb Z.sub];
     [tauto|];
     destruct (io_unlink w) as [[] | e]; cbn -[Z.add Z.eqb Z.sub]; [|tauto] |];
    (destruct (io_capture w) as [[] | e]; cbn -[Z.add Z.eqb Z.sub]; [|tauto];
     destruct (k st + 1 =? 0) eqn:Ek; cbn -[Z.add Z.eqb Z.sub]; [tauto|];
     destruct (io_features w) as [kps | e]; cbn -[Z.add Z.eqb Z.sub];
     [|tauto];
     destruct (measure_and_solve w (fst kps) (snd kps)
                 (total_seconds (io_now w - now_time st)))
       as [[v h] | e] eqn:Em;
     cbn -[Z.add Z.eqb Z.sub];
     [right; exists kps, v, h; auto
     | destruct e; cbn; tauto]).
Qed.

Lemma total_seconds_measurable t t' :
  ticks t t' -> measurable (total_seconds (t' - t)).
Proof.
  unfold ticks, measurable, total_seconds. intros [H1 H2].
  assert (L : (1 <= IZR (t' - t))%R) by (apply IZR_le; lia).
  assert (U : (IZR (t' - t) <= 1000000000000)%R) by (apply IZR_le; lia).
  lra.
Qed.

Lemma loop_body_plausible w st :
  ticks (now_time st) (io_now w) ->
  resolvable_pass w ->
  Forall plausible (v_list st) ->
  Forall plausible (v_list (snd (loop_body base w st))).
Proof.
  intros Ht Hw Hp.
  destruct (loop_body_sample_source w st)
    as [Ev | (kps & v & h & Ef & Hm & Ev)]; rewrite Ev.
  - exact Hp.
  - apply Forall_app. split; [exact Hp|]. constructor; [|constructor].
    rewrite measure_and_solve_displacement in Hm.
    destruct (measured_displacement w (fst kps) (snd kps)) as [d | e] eqn:Ed;
      [|discriminate].
    cbn [bind] in Hm.
    pose proof (Hw kps d Ef Ed) as Hd.
    pose proof (total_seconds_measurable _ _ Ht) as Hdt.
    destruct (solve_sample_plausible d _ Hd Hdt) as (v' & h' & Hs & Hv & _).
    rewrite Hs in Hm. injection Hm as <- _. exact Hv.
Qed.

Lemma main_loop_plausible start ws : forall st,
  Sorted ticks (now_time st :: map io_now ws) ->
  Forall resolvable_pass ws ->
  Forall plausible (v_list st) ->
  Forall plausible (v_list (snd (main_loop base start ws st))).
Proof.
  induction ws as [|w ws IH]; intros st Hs Hw Hp; cbn [main_loop].
  - destruct (now_time st <? start + nine_minutes); exact Hp.
  - destruct (now_time st <? start + nine_minutes); [|exact Hp].
    unfold mbind. cbn [map] in Hs.
    inversion Hs as [|? ? Hs' Hh]; subst. inversion Hh; subst.
    inversion Hw as [|? ? Hw1 Hw']; subst.
    pose proof (loop_body_plausible w st H0 Hw1 Hp) as Hp'.
    destruct (loop_body_lists base w st) as (_ & Et & _).
    destruct (loop_body base w st) as [[[] | e] st1]; cbn [snd] in *.
    + apply IH; [|exact Hw'|exact Hp']. now rewrite Et.
    + exact Hp'.
Qed.

End ForwardClock.

(** X16: in a run in which every reading of the clock is later than the
    one before by at most a million seconds, and every displacement
    measured is zero or between a millionth of a pixel and a million
    pixels, every velocity sample collected is positive and below
    7906 m/s, whatever the outcome of the run; and the estimate taken from
    the samples, or the fallback when there is none, lies strictly between
    0 and 7.906 km/s. *)
Theorem forward_clock_gives_plausible_estimate (io : run_io) :
  Sorted ticks (io_now0 io :: map io_now (io_iterations io)) ->
  Forall resolvable_pass (io_iterations io) ->
  Forall (fun v => (0 < v < 7906)%R) (v_list (snd (main io)))
  /\ exists x, estimate_kmps (v_list (snd (main io))) = Ok x
               /\ (0 < x < 7.906)%R.
Proof.
  intros Hs Hw. unfold main.
  destruct (main_from_keeps_loop_state 418000%R io)
    as (_ & _ & _ & _ & Ev & _).
  rewrite Ev.
  pose proof (main_loop_plausible (base_folder io) (io_start io)
                (io_iterations io) (initial_state 418000%R io) Hs Hw
                (Forall_nil _)) as Hp.
  split; [exact Hp|].
  destruct (v_list (snd (main_loop (base_folder io) (io_start io)
                           (io_iterations io) (initial_state 418000%R io))))
    as [|v vs].
  - rewrite estimate_kmps_empty. eexists. split; [reflexivity | lra].
  - rewrite estimate_kmps_nonempty. eexists. split; [reflexivity|].
    assert (Hpos : Forall (fun x => (0 < x)%R) (v :: vs))
      by (eapply Forall_impl; [|exact Hp]; intros a [Ha _]; exact Ha).
    assert (Hlt : Forall (fun x => (x < 7906)%R) (v :: vs))
      by (eapply Forall_impl; [|exact Hp]; intros a [_ Ha]; exact Ha).
    pose proof (total_pos v vs Hpos) as Ht.
    pose proof (total_below v vs 7906 Hlt) as Hu.
    unfold arithmetic_mean. fold (total (v :: vs)).
    assert (Hn : (0 < INR (List.length (v :: vs)))%R)
      by (apply lt_0_INR; cbn; lia).
    set (n := INR (List.length (v :: vs))) in *.
    set (t := total (v :: vs)) in *.
    assert (Hq : (0 < t / n < 7906)%R).
    { split.
      - now apply Rdiv_lt_0_compat.
      - apply Rmult_lt_reg_r with n; [exact Hn|].
        unfold Rdiv. rewrite Rmult_assoc, Rinv_l; lra. }
    lra.
Qed.

Lemma three_passes_a_second_apart_give_a_plausible_estimate :
  exists x,
    estimate_kmps
      (v_list (snd (main (mkRun Scenario.folder 0 0 None
                            [Scenario.no_match_pair 1000000;
                             Scenario.matcher_fault 2000000;
                             Scenario.no_match_pair 3000000]))))
    = Ok x
    /\ (0 < x < 7.906)%R.
Proof.
  apply (forward_clock_gives_plausible_estimate
           (mkRun Scenario.folder 0 0 None
              [Scenario.no_match_pair 1000000;
               Scenario.matcher_fault 2000000;
               Scenario.no_match_pair 3000000])).
  - repeat constructor; cbn; lia.
  - constructor; [|constructor; [|constructor; [|constructor]]];
      intros kps d Ef Ed.
    + left. cbn in Ed. now injection Ed as <-.
    + discriminate Ed.
    + left. cbn in Ed. now injection Ed as <-.
Defined.

(* ----------------------------------------------------------------- *)
(** ** The files of the photos *)

Section PhotoFiles.

Variable base : string.

Lemma photo_index_injective :
  Injective (fun i : nat => photo_path base (Z.of_nat i)).
Proof.
  intros i j H. apply photo_path_inj in H. lia.
Qed.

(** Deleted photos below the ones held: no path occurs twice. *)
Lemma photos_below_and_held_distinct u a n :
  (u <= a)%nat -> NoDup (photos base 0 u ++ photos base a n).
Proof.
  intros H. unfold photos. rewrite <- map_app.
  apply Injective_map_NoDup; [apply photo_index_injective|].
  apply NoDup_app; try apply seq_NoDup.
  intros i Hi Hj. apply in_seq in Hi. apply in_seq in Hj. lia.
Qed.

Lemma photos_tl a n :
  tl (photos base a (S n)) = photos base (S a) n.
Proof. reflexivity. Qed.

Lemma photos_firstn_1 a n :
  firstn 1 (photos base a (S n)) = [photo_path base (Z.of_nat a)].
Proof. reflexivity. Qed.

(** The buffer and the deleted files after a pass, whatever its outcome. *)
Lemma loop_body_buffer_cases w st :
  let st' := snd (loop_body base w st) in
  (images_deque st' = images_deque (after_capture base w st)
   /\ unlinked st' = unlinked (after_capture base w st))
  \/ (images_deque st' = images_deque st /\ unlinked st' = unlinked st)
  \/ ((42 <= List.length (images_deque st))%nat
      /\ images_deque st' = tl (images_deque st)
      /\ (unlinked st' = unlinked st
          \/ unlinked st' = unlinked st ++ firstn 1 (images_deque st))).
Proof.
  cbn zeta. run_capture. unfold after_capture. step.
  destruct (Nat.leb_spec 42 (List.length (images_deque st)))
    as [Hfull | Hfree].
  - destruct (images_deque st) as [|p dq] eqn:Edq; [cbn in Hfull; lia|].
    step. rewrite ?Edq. step.
    destruct (io_unlink w) as [[] | e]; step.
    + destruct (io_capture w) as [[] | e]; step.
      * left.
        destruct (negb (k st + 1 =? 0)%Z).
        -- destruct (compare_photos_frame w
                       (total_seconds (io_now w - now_time st))
                       (set_images_deque
                          (dq ++ [photo_path base (k st + 1)])
                          (set_unlinked (unlinked st ++ [p])
                             (set_images_deque dq
                                (set_now_time (io_now w)
                                   (set_k (k st + 1) st))))))
             as (_ & _ & Ed & Eu & _).
           rewrite Ed, Eu. cbn. rewrite ?app_nil_r. auto.
        -- cbn. rewrite ?app_nil_r. auto.
      * right. right. split; [rewrite ?Edq; cbn [List.length] in *; lia|]. split; [reflexivity|].
        right. reflexivity.
    + right. right. split; [rewrite ?Edq; cbn [List.length] in *; lia|]. split; [reflexivity|].
      left. reflexivity.
  - step. destruct (io_capture w) as [[] | e]; step.
    + left.
      destruct (negb (k st + 1 =? 0)%Z).
      * destruct (compare_photos_frame w
                    (total_seconds (io_now w - now_time st))
                    (set_images_deque
                       (images_deque st ++ [photo_path base (k st + 1)])
                       (set_now_time (io_now w) (set_k (k st + 1) st))))
          as (_ & _ & Ed & Eu & _).
        rewrite Ed, Eu. cbn. rewrite ?app_nil_r. auto.
      * cbn. rewrite ?app_nil_r. auto.
    + right. left. split; reflexivity.
Qed.

(** After a pass from a regular buffer the deleted photos are the oldest
    ones and lie below the ones held, whatever the outcome. *)
Lemma loop_body_buffer_shape w st N :
  buffer_after base N st ->
  exists u a n,
    (u <= a)%nat
    /\ unlinked (snd (loop_body base w st)) = photos base 0 u
    /\ images_deque (snd (loop_body base w st)) = photos base a n.
Proof.
  intros Hinv. pose proof Hinv as (Hk & Hd & Hu).
  destruct (loop_body_buffer_cases w st)
    as [[Ed Eu] | [[Ed Eu] | (Hfull & Ed & Eu)]].
  - assert (Hstep : buffer_after base (S N)
                      (after_capture base w st)).
    { unfold buffer_after, after_capture. cbn [k images_deque unlinked].
      rewrite Hd, Hu, Hk, photos_length.
      replace (Z.of_nat N - 1 + 1)%Z with (Z.of_nat N) by lia.
      split; [lia|].
      destruct (Nat.leb_spec 42 (Nat.min N 42)) as [Hf | Hf].
      - replace (Nat.min N 42) with 42%nat by lia.
        replace (Nat.min (S N) 42) with 42%nat by lia.
        replace (S N - 42)%nat with (S (N - 42)) by lia.
        split.
        + rewrite (photos_snoc base (S (N - 42)) 41).
          replace (S (N - 42) + 41)%nat with N by lia. reflexivity.
        + rewrite (photos_snoc base 0 (N - 42)). reflexivity.
      - replace (Nat.min N 42) with N by lia.
        replace (Nat.min (S N) 42) with (S N) by lia.
        replace (S N - 42)%nat with 0%nat by lia.
        replace (N - 42)%nat with 0%nat by lia.
        split; [now rewrite (photos_snoc base 0 N) | now rewrite app_nil_r]. }
    destruct Hstep as (_ & Hd' & Hu').
    exists (S N - 42)%nat, (S N - 42)%nat, (Nat.min (S N) 42).
    rewrite Ed, Eu. auto.
  - exists (N - 42)%nat, (N - 42)%nat, (Nat.min N 42).
    rewrite Ed, Eu. auto.
  - rewrite Hd, photos_length in Hfull.
    assert (HN : (42 <= N)%nat) by lia.
    rewrite Hd in Ed, Eu.
    replace (Nat.min N 42) with 42%nat in Ed, Eu by lia.
    rewrite photos_tl in Ed. rewrite photos_firstn_1 in Eu.
    destruct Eu as [Eu | Eu].
    + exists (N - 42)%nat, (S (N - 42)), 41%nat.
      rewrite Ed, Eu, Hu. split; [lia | auto].
    + exists (S (N - 42)), (S (N - 42)), 41%nat.
      rewrite Ed, Eu, Hu. split; [lia|]. split; [|reflexivity].
      rewrite (photos_snoc base 0 (N - 42)). reflexivity.
Qed.

Lemma main_loop_buffer_shape start ws : forall st N,
  buffer_after base N st ->
  exists u a n,
    (u <= a)%nat
    /\ unlinked (snd (main_loop base start ws st)) = photos base 0 u
    /\ images_deque (snd (main_loop base start ws st)) = photos base a n.
Proof.
  induction ws as [|w ws IH]; intros st N Hinv; cbn [main_loop].
  - destruct Hinv as (_ & Hd & Hu).
    exists (N - 42)%nat, (N - 42)%nat, (Nat.min N 42).
    destruct (now_time st <? start + nine_minutes)%Z; cbn [snd]; auto.
  - destruct (now_time st <? start + nine_minutes)%Z.
    + unfold mbind.
      pose proof (loop_body_buffer_shape w st N Hinv) as Hshape.
      destruct (loop_body base w st) as [[[] | e] st1] eqn:E;
        cbn [snd] in *.
      * apply (IH st1 (S N)). now apply (buffer_after_step base w st).
      * exact Hshape.
    + destruct Hinv as (_ & Hd & Hu).
      exists (N - 42)%nat, (N - 42)%nat, (Nat.min N 42). cbn [snd]. auto.
Qed.

End PhotoFiles.

(** X17: photos of different passes never share a file name: the path is
    an injective function of the counter, so the paths of any stretch of
    consecutive photos are pairwise different. *)
Theorem photo_paths_never_collide (base : string) :
  (forall a b : Z, photo_path base a = photo_path base b <-> a = b)
  /\ (forall a n : nat, NoDup (photos base a n)).
Proof.
  split.
  - intros a b. split; [apply photo_path_inj | now intros ->].
  - intros a n. unfold photos.
    apply Injective_map_NoDup; [apply photo_index_injective|].
    apply seq_NoDup.
Qed.

(** X18: in the state a run ends in, whatever its outcome, no path has
    been deleted twice, no path is held twice in the buffer, and no
    deleted path is still in the buffer. *)
Theorem no_path_deleted_twice_or_kept_after_deletion (io : run_io) :
  NoDup (unlinked (snd (main io)))
  /\ NoDup (images_deque (snd (main io)))
  /\ (forall p, In p (unlinked (snd (main io))) ->
                ~ In p (images_deque (snd (main io)))).
Proof.
  unfold main.
  destruct (main_from_keeps_loop_state 418000%R io)
    as (_ & _ & Ed & Eu & _).
  rewrite Ed, Eu.
  destruct (main_loop_buffer_shape (base_folder io) (io_start io)
              (io_iterations io) (initial_state 418000%R io) 0
              (buffer_after_initial (base_folder io) 418000%R io))
    as (u & a & n & Hua & -> & ->).
  pose proof (photos_below_and_held_distinct (base_folder io) u a n Hua)
    as Hnd.
  split; [exact (NoDup_app_remove_r _ _ Hnd)|].
  split; [exact (NoDup_app_remove_l _ _ Hnd)|].
  intros p Hp Hq.
  apply (in_photos (base_folder io)) in Hp. destruct Hp as (i & Hi & ->).
  apply (in_photos (base_folder io)) in Hq. destruct Hq as (j & Hj & E).
  apply photo_path_inj in E. lia.
Qed.

(* ----------------------------------------------------------------- *)
(** ** The first pass and later passes *)

Section Passes.

Local Open Scope Z_scope.

Variable base : string.

(** The loop only ever appends to the list of samples. *)
Lemma main_loop_appends start ws : forall st,
  exists more,
    v_list (snd (main_loop base start ws st)) = v_list st ++ more.
Proof.
  induction ws as [|w ws IH]; intros st; cbn [main_loop].
  - exists []. rewrite app_nil_r.
    now destruct (now_time st <? start + nine_minutes).
  - destruct (now_time st <? start + nine_minutes);
      [|exists []; now rewrite app_nil_r].
    unfold mbind.
    assert (Hb : exists one,
               v_list (snd (loop_body base w st)) = v_list st ++ one).
    { destruct (loop_body_lists base w st)
        as (_ & _ & [[Ev _] | (_ & kps & v & h & _ & Ev & _)]).
      - exists []. now rewrite app_nil_r.
      - now exists [v]. }
    destruct Hb as (one & Hone).
    destruct (loop_body base w st) as [[[] | e] st1]; cbn [snd] in *.
    + destruct (IH st1) as (more & Hmore).
      exists (one ++ more). now rewrite Hmore, Hone, app_assoc.
    + now exists one.
Qed.

(** Further passes offered by the environment leave what the loop has
    collected so far in place. *)
Lemma main_loop_extends start ws extra : forall st,
  exists more,
    v_list (snd (main_loop base start (ws ++ extra) st))
    = v_list (snd (main_loop base start ws st)) ++ more.
Proof.
  induction ws as [|w ws IH]; intros st.
  - cbn [app]. destruct (main_loop_appends start extra st) as (more & H).
    cbn [main_loop].
    destruct extra as [|w' extra'].
    + exists []. now rewrite app_nil_r.
    + destruct (now_time st <? start + nine_minutes) eqn:Et.
      * exists more. cbn [snd]. rewrite <- H. cbn [main_loop].
        now rewrite Et.
      * exists []. rewrite app_nil_r. cbn [main_loop]. now rewrite Et.
  - cbn [app main_loop].
    destruct (now_time st <? start + nine_minutes);
      [|exists []; now rewrite app_nil_r].
    unfold mbind.
    destruct (loop_body base w st) as [[[] | e] st1].
    + apply IH.
    + exists []. now rewrite app_nil_r.
Qed.

End Passes.

(** X19: the first pass only takes a photo: what feature detection and
    the matcher would answer in it has no influence on the run. *)
Theorem first_pass_ignores_features_and_matches
    (base : string) (start now0 : Z) (prior : option string)
    (w : iteration_io) (ws : list iteration_io)
    (features : result (list KeyPoint * list KeyPoint))
    (matches : result (list DMatch)) :
  main (mkRun base start now0 prior
          (mkIO (io_now w) (io_unlink w) (io_capture w) features matches
             :: ws))
  = main (mkRun base start now0 prior (w :: ws)).
Proof.
  assert (E : forall st,
             k st = (-1)%Z ->
             loop_body base
               (mkIO (io_now w) (io_unlink w) (io_capture w) features matches)
               st
             = loop_body base w st).
  { intros st Hk. run_capture. step. rewrite Hk. reflexivity. }
  assert (L : forall st,
             k st = (-1)%Z ->
             main_loop base start
               (mkIO (io_now w) (io_unlink w) (io_capture w) features matches
                  :: ws) st
             = main_loop base start (w :: ws) st).
  { intros st Hk. cbn [main_loop].
    destruct (now_time st <? start + nine_minutes)%Z; [|reflexivity].
    unfold mbind. now rewrite (E st Hk). }
  unfold main, main_from, mbind.
  cbn [base_folder io_start io_iterations io_now0 io_prior_result
       initial_state].
  now rewrite L by reflexivity.
Qed.

(** X20: when the environment offers further passes, the samples the run
    had collected stay as they are: the longer run's list of samples
    begins with the shorter run's. *)
Theorem further_passes_only_append_samples
    (base : string) (start now0 : Z) (prior : option string)
    (ws extra : list iteration_io) :
  exists more,
    v_list (snd (main (mkRun base start now0 prior (ws ++ extra))))
    = v_list (snd (main (mkRun base start now0 prior ws))) ++ more.
Proof.
  unfold main.
  destruct (main_from_keeps_loop_state 418000%R
              (mkRun base start now0 prior (ws ++ extra)))
    as (_ & _ & _ & _ & Ev1 & _).
  destruct (main_from_keeps_loop_state 418000%R
              (mkRun base start now0 prior ws))
    as (_ & _ & _ & _ & Ev2 & _).
  rewrite Ev1, Ev2.
  cbn [base_folder io_start io_iterations].
  apply main_loop_extends.
Qed.
